(** * iOS 26 call-screening detection: a shallow embedding

    Source: [iosCallScreeningTranscriptions/functions/
    ios26_CallScreeningDetection_Transcriptions.js].

    The Twilio function keeps five process-wide [Map]s keyed by the call
    id, classifies every transcribed chunk with four substring
    predicates, and drives a small state machine that fires one of three
    REST actions.  The embedding below follows the source function by
    function and keeps its names.

    Modelling conventions
    - JavaScript strings are [string]s of 8-bit characters; the phrase
      lists and every text used below are ASCII.
    - [Date.now()] is an integer number of milliseconds ([Z]); one
      reading is taken per webhook.  The source divides by 1000 and
      compares seconds; here elapsed time stays in milliseconds and
      [elapsed > 5] reads [5000 < elapsed].
    - The Twilio REST client is an oracle carried by each webhook
      ([World]): what [fetch] answers and whether [update] succeeds.
    - The handler and the resolver are embedded twice.  The first
      embedding runs a handler to its end: it describes a webhook
      handled on its own, and [step], [trace] and [final] replay
      webhooks one after another.  The second, [Overlapping], suspends
      the handler at every [await] of the resolver, so that other
      webhooks are handled while it waits; run without having to wait
      it is the first ([handler_alone]).
    - [console.log] is dropped; the calls that matter for ordering are
      recorded in an effect trace. *)

From Stdlib Require Import ZArith Ascii String Sorted.
From stdpp Require Import gmap strings list fin_maps.

Local Open Scope Z_scope.

(** ** JavaScript string primitives *)

Module Js.

(** [c.toLowerCase()] on one character. *)
Definition lower_ascii (c : ascii) : ascii :=
  let n := nat_of_ascii c in
  if ((65 <=? n) && (n <=? 90))%nat then ascii_of_nat (n + 32) else c.

(** [s.toLowerCase()] *)
Fixpoint toLowerCase (s : string) : string :=
  match s with
  | EmptyString => EmptyString
  | String c s' => String (lower_ascii c) (toLowerCase s')
  end.

(** [s.startsWith(p)] *)
Fixpoint startsWith (p s : string) : bool :=
  match p, s with
  | EmptyString, _ => true
  | String a p', String b s' => if Ascii.eqb a b then startsWith p' s' else false
  | String _ _, EmptyString => false
  end.

(** [s.includes(p)] *)
Fixpoint includes (s p : string) : bool :=
  startsWith p s ||
  match s with
  | EmptyString => false
  | String _ s' => includes s' p
  end.

(** The ASCII part of the class [\s]. *)
Definition is_ws (c : ascii) : bool := Ascii.is_space c.

Fixpoint trimStart (s : string) : string :=
  match s with
  | EmptyString => EmptyString
  | String c s' => if is_ws c then trimStart s' else s
  end.

(** Drops trailing white space; [None] stands for a string that is
    white space only. *)
Fixpoint trimEnd_aux (s : string) : option string :=
  match s with
  | EmptyString => None
  | String c s' =>
      match trimEnd_aux s' with
      | Some t => Some (String c t)
      | None => if is_ws c then None else Some (String c EmptyString)
      end
  end.

Definition trimEnd (s : string) : string :=
  match trimEnd_aux s with Some t => t | None => EmptyString end.

(** [s.trim()] *)
Definition trim (s : string) : string := trimEnd (trimStart s).

(** [s.split(/\s+/).length]: one more than the number of maximal runs
    of white space; a leading or trailing run yields an empty first or
    last piece, and the empty string splits into one empty piece. *)
Fixpoint split_ws_runs (in_run : bool) (s : string) : nat :=
  match s with
  | EmptyString => 0
  | String c s' =>
      if is_ws c
      then (if in_run then 0 else 1) + split_ws_runs true s'
      else split_ws_runs false s'
  end%nat.

Definition split_ws_length (s : string) : nat := S (split_ws_runs false s).

(** [s.slice(-n)] for [0 < n]: the last [n] characters, the whole
    string when it is shorter. *)
Definition slice_last (n : nat) (s : string) : string :=
  let l := list_ascii_of_string s in
  string_of_list_ascii (drop (length l - n) l).

(** A JavaScript string is falsy exactly when it is empty. *)
Definition truthy (s : string) : bool :=
  match s with EmptyString => false | _ => true end.

(** [patterns.some(pattern => text.includes(pattern))] *)
Definition some_includes (patterns : list string) (text : string) : bool :=
  existsb (includes text) patterns.

End Js.

(** ** Pattern detection *)

Definition ios26Patterns : list string :=
  [ "record your name and reason for calling";
    "if you record your name";
    "name and reason for calling";
    "see if this person is available";
    "i'll see if this person";
    "record your name";
    "reason for calling";
    "reason for your call";
    "state your name";
    "say your name";
    "this person is available";
    "see if this person";
    "checking if this person" ].

Definition detectIOS26Patterns (text : string) : bool :=
  if negb (Js.truthy text) then false
  else
    let lowerText := Js.toLowerCase text in
    Js.some_includes ios26Patterns lowerText.

Definition intermediatePatterns : list string :=
  [ "thanks";
    "thank you";
    "please stay on the line";
    "stay on the line";
    "please hold";
    "one moment" ].

Definition detectIntermediatePrompts (text : string) : bool :=
  if negb (Js.truthy text) then false
  else
    let lowerText := Js.toLowerCase text in
    if (10 <? Js.split_ws_length lowerText)%nat then false
    else Js.some_includes intermediatePatterns lowerText.

Definition voicemailPatterns : list string :=
  [ "leave a message";
    "leave an additional message";
    "after the tone";
    "after the beep";
    "not available";
    "unable to take your call";
    "voicemail";
    "please leave";
    "at the sound of the beep";
    "can't come to the phone";
    "cannot come to the phone";
    "can't take your call";
    "cannot take your call";
    "please call back";
    "call back later";
    "try again later";
    "leave your name and number";
    "record your message";
    "recording";
    "mailbox";
    "call has been forwarded";
    "forwarded to voicemail";
    "forwarded to an automatic voice message";
    "person you are trying to reach";
    "person you're trying to reach";
    "person you are calling";
    "subscriber you are calling";
    "subscriber you have called";
    "is unavailable";
    "is not available" ].

Definition detectVoicemailPatterns (text : string) : bool :=
  if negb (Js.truthy text) then false
  else
    let lowerText := Js.toLowerCase text in
    Js.some_includes voicemailPatterns lowerText.

Definition voicemailGreetingPatterns : list string :=
  [ "can't come to the phone";
    "cannot come to the phone";
    "can't take your call";
    "cannot take your call";
    "not available right now";
    "not available to take";
    "unable to answer";
    "away from my phone";
    "please leave a message";
    "you've reached";
    "you have reached";
    "this is the voicemail";
    "at the tone" ].

Definition humanPatterns : list string :=
  [ "who is this";
    "who are you";
    "what do you want";
    "hold on";
    "wait";
    "speaking";
    "this is" ].

Definition detectHumanSpeech (text : string) : bool :=
  if negb (Js.truthy text) then false
  else
    let lowerText := Js.toLowerCase text in
    if detectIOS26Patterns text || detectVoicemailPatterns text then false
    else if detectIntermediatePrompts text then false
    else if Js.some_includes voicemailGreetingPatterns lowerText then false
    else
      let hasHumanPattern := Js.some_includes humanPatterns lowerText in
      let hasQuestionMark := Js.includes text "?" in
      let hasInteractiveQuestion :=
        hasQuestionMark &&
        (Js.includes lowerText "who" || Js.includes lowerText "what"
         || Js.includes lowerText "why") in
      hasHumanPattern || hasInteractiveQuestion.


(** ** State management: the five process-wide maps *)

Inductive CallState :=
  | INITIAL | IOS26_MONITORING | PASSTHROUGH | VOICEMAIL_DELIVERED | UNKNOWN.

Global Instance CallState_eq_dec : EqDecision CallState.
Proof. solve_decision. Defined.

Record Store := mkStore {
  callStates : gmap string CallState;
  callTranscripts : gmap string string;
  callStartTimes : gmap string Z;
  amdResults : gmap string string;
  processedActions : gmap string (gset string)
}.

Definition emptyStore : Store := mkStore ∅ ∅ ∅ ∅ ∅.

(** ** The outside world and the effect trace *)

Inductive Action := Identify | LeaveVoicemail | Passthrough.

Global Instance Action_eq_dec : EqDecision Action.
Proof. solve_decision. Defined.

(** The three TwiML documents sent with [client.calls(sid).update]; only
    the spoken message is kept of their text. *)
Inductive Twiml :=
  | IdentifyTwiml (message : string)
  | VoicemailTwiml (message : string)
  | StopTwiml.

(** What a dispatcher function does to the outside world. *)
Inductive ExtOp :=
  | Delay (ms : Z)
  | FetchCall
  | UpdateCall (twiml : Twiml).

Inductive Effect :=
  | Initialize (callSid : string)
  | SetState (callSid : string) (newState : CallState)
  | MarkAction (callSid : string) (action : string)
  | Invoke (callSid : string) (a : Action)
  | External (callSid : string) (op : ExtOp)
  | Cleanup (callSid : string).

Global Instance Twiml_eq_dec : EqDecision Twiml.
Proof. solve_decision. Defined.
Global Instance ExtOp_eq_dec : EqDecision ExtOp.
Proof. solve_decision. Defined.
Global Instance Effect_eq_dec : EqDecision Effect.
Proof. solve_decision. Defined.

(** [client.calls(sid).fetch()]: it throws, or yields the call's status
    and, when present, its [dateUpdated] in milliseconds. *)
Inductive FetchResult :=
  | FetchFailed
  | Fetched (status : string) (dateUpdated : option Z).

(** [client.calls(sid).update(...)]: it succeeds, or throws an error
    with a code and a message. *)
Inductive UpdateResult :=
  | UpdateOk
  | UpdateFailed (code : Z) (message : string).

Record World := mkWorld {
  now : Z;                  (* Date.now() when the webhook arrives *)
  call_fetch : FetchResult; (* answer of fetch, were it asked *)
  fetch_now : Z;            (* new Date() right after the fetch *)
  call_update : UpdateResult
}.

Inductive DispatchResult := SUCCESS | ABORTED | Undefined.

Global Instance DispatchResult_eq_dec : EqDecision DispatchResult.
Proof. solve_decision. Defined.

(** ** Sequencing with early [return] *)

Inductive Flow (R A : Type) :=
  | Next (a : A)
  | Return (r : R).
Arguments Next {R A} a.
Arguments Return {R A} r.

Definition Proc (R A : Type) : Type := Store → Flow R A * Store * list Effect.

Definition ret {R A} (a : A) : Proc R A := λ st, (Next a, st, []).

Definition bind {R A B} (m : Proc R A) (k : A → Proc R B) : Proc R B :=
  λ st,
    match m st with
    | (Next a, st1, tr1) =>
        match k a st1 with
        | (f, st2, tr2) => (f, st2, tr1 ++ tr2)
        end
    | (Return r, st1, tr1) => (Return r, st1, tr1)
    end.

Definition return_ {R A} (r : R) : Proc R A := λ st, (Return r, st, []).
Definition gets {R A} (f : Store → A) : Proc R A := λ st, (Next (f st), st, []).
Definition modify {R} (f : Store → Store) : Proc R unit := λ st, (Next tt, f st, []).
Definition emit {R} (e : Effect) : Proc R unit := λ st, (Next tt, st, [e]).
Definition when {R} (b : bool) (m : Proc R unit) : Proc R unit :=
  if b then m else ret tt.

Declare Scope proc_scope.
Delimit Scope proc_scope with proc.
Notation "'do' x <- m ; k" := (bind m (λ x, k))
  (at level 20, x name, m at level 100, k at level 200) : proc_scope.
Notation "'run' m ; k" := (bind m (λ _, k))
  (at level 20, m at level 100, k at level 200) : proc_scope.
Local Open Scope proc_scope.

(** The value a function body yields: what it returned early, or what it
    fell through to. *)
Definition result {R} (m : Proc R R) (st : Store) : R * Store * list Effect :=
  match m st with
  | (Next r, st', tr) => (r, st', tr)
  | (Return r, st', tr) => (r, st', tr)
  end.

(** ** Accessors *)

Definition initializeCallState {R} (w : World) (callSid : string) : Proc R unit :=
  run modify (λ st,
    mkStore (<[callSid := INITIAL]> (callStates st))
            (<[callSid := ""]> (callTranscripts st))
            (<[callSid := now w]> (callStartTimes st))
            (amdResults st)
            (processedActions st));
  emit (Initialize callSid).

Definition getCallState (callSid : string) (st : Store) : CallState :=
  default UNKNOWN (callStates st !! callSid).

Definition setCallState {R} (callSid : string) (newState : CallState) : Proc R unit :=
  run modify (λ st,
    mkStore (<[callSid := newState]> (callStates st)) (callTranscripts st)
            (callStartTimes st) (amdResults st) (processedActions st));
  emit (SetState callSid newState).

Definition setAMDResult {R} (callSid : string) (r : string) : Proc R unit :=
  modify (λ st,
    mkStore (callStates st) (callTranscripts st) (callStartTimes st)
            (<[callSid := r]> (amdResults st)) (processedActions st)).

Definition getAMDResult (callSid : string) (st : Store) : option string :=
  amdResults st !! callSid.

(** Milliseconds since the call started; [0] when the start time is
    missing or falsy. *)
Definition getCallElapsedTime (w : World) (callSid : string) (st : Store) : Z :=
  match callStartTimes st !! callSid with
  | None => 0
  | Some startTime => if startTime =? 0 then 0 else now w - startTime
  end.

Definition hasProcessedAction (callSid action : string) (st : Store) : bool :=
  let actions := default ∅ (processedActions st !! callSid) in
  bool_decide (action ∈ actions).

Definition markActionProcessed {R} (callSid action : string) : Proc R unit :=
  run modify (λ st,
    let actions := default ∅ (processedActions st !! callSid) in
    mkStore (callStates st) (callTranscripts st) (callStartTimes st)
            (amdResults st)
            (<[callSid := {[action]} ∪ actions]> (processedActions st)));
  emit (MarkAction callSid action).

Definition cleanupCallState {R} (callSid : string) : Proc R unit :=
  run modify (λ st,
    mkStore (delete callSid (callStates st))
            (delete callSid (callTranscripts st))
            (delete callSid (callStartTimes st))
            (delete callSid (amdResults st))
            (delete callSid (processedActions st)));
  emit (Cleanup callSid).

(** ** Action functions (REST API calls)

    Each function is a pure description of what it asks of the outside
    world, in order, and of the value it resolves to.  The first effect
    records that the function was entered.  [context.getTwilioClient()]
    is taken to succeed. *)

Definition terminal_status (status : string) : bool :=
  bool_decide (status = "completed") || bool_decide (status = "busy")
  || bool_decide (status = "failed") || bool_decide (status = "canceled").

Definition benign_update_error (code : Z) (message : string) : bool :=
  (code =? 20001) || Js.includes message "not be modified"
  || Js.includes message "cannot be updated" || Js.includes message "already".

Definition playIOS26Response (w : World) (callSid screeningResponse : string)
  : DispatchResult * list Effect :=
  let entered :=
    [Invoke callSid Identify; External callSid (Delay 100);
     External callSid FetchCall] in
  let send := External callSid (UpdateCall (IdentifyTwiml screeningResponse)) in
  let update :=
    match call_update w with
    | UpdateOk => (SUCCESS, entered ++ [send])
    | UpdateFailed code message =>
        if benign_update_error code message
        then (ABORTED, entered ++ [send])
        else (Undefined, entered ++ [send])   (* rethrown, caught, logged *)
    end in
  match call_fetch w with
  | Fetched status dateUpdated =>
      if terminal_status status then (ABORTED, entered)
      else
        match dateUpdated with
        | Some updatedAt =>
            let msSinceUpdate := fetch_now w - updatedAt in
            if msSinceUpdate <? 2000 then (ABORTED, entered) else update
        | None => update
        end
  | FetchFailed => update            (* "Continue anyway" *)
  end.

Definition leaveVoicemailMessage (w : World) (callSid voicemailMessage : string)
  : DispatchResult * list Effect :=
  (Undefined,
   [Invoke callSid LeaveVoicemail;
    External callSid (UpdateCall (VoicemailTwiml voicemailMessage))]).

Definition stopTranscriptionAndPassthrough (w : World) (callSid : string)
  : DispatchResult * list Effect :=
  (Undefined,
   [Invoke callSid Passthrough; External callSid (UpdateCall StopTwiml)]).

(** [await f(...)]: the call's effects happen here, in order. *)
Definition await {R} (call : DispatchResult * list Effect) : Proc R DispatchResult :=
  λ st, (Next (fst call), st, snd call).

(** ** Scenario detection *)

Inductive ScenarioType :=
  | scenario3 | scenario3_fallback | scenario4 | scenario1
  | scenario1_inferred | scenario1_voicemail | scenario2.

Inductive ActionName :=
  | passthrough | voicemail | ios26_response | ios26_response_late.

Record Detection := mkDetection {
  detected : bool;
  type : ScenarioType;
  action : ActionName
}.

Global Instance ScenarioType_eq_dec : EqDecision ScenarioType.
Proof. solve_decision. Defined.
Global Instance ActionName_eq_dec : EqDecision ActionName.
Proof. solve_decision. Defined.
Global Instance Detection_eq_dec : EqDecision Detection.
Proof. solve_decision. Defined.

Definition is_state (s t : CallState) : bool :=
  match s, t with
  | INITIAL, INITIAL | IOS26_MONITORING, IOS26_MONITORING
  | PASSTHROUGH, PASSTHROUGH | VOICEMAIL_DELIVERED, VOICEMAIL_DELIVERED
  | UNKNOWN, UNKNOWN => true
  | _, _ => false
  end.
Definition amd_is (r : option string) (v : string) : bool :=
  bool_decide (r = Some v).

(** The sliding window: append the trimmed chunk after a space, keep the
    last 300 characters. *)
Definition accumulate (stored : option string) (transcript : string) : string :=
  let accumulated :=
    (match stored with
     | Some s => if Js.truthy s then s else ""
     | None => ""
     end) +:+ " " +:+ Js.trim transcript in
  if (300 <? String.length accumulated)%nat
  then Js.slice_last 300 accumulated
  else accumulated.

Definition setTranscript {R} (callSid accumulated : string) : Proc R unit :=
  modify (λ st,
    mkStore (callStates st) (<[callSid := accumulated]> (callTranscripts st))
            (callStartTimes st) (amdResults st) (processedActions st)).

(** [processTranscriptionWithScenarios]; the result is [None] for
    [null].  [isFinal], [context] and [primaryPhrase] are only logged. *)
Definition processTranscriptionWithScenarios
    (w : World) (transcript callSid screeningResponse voicemailMessage : string)
  : Proc (option Detection) (option Detection) :=
  do currentState <- gets (getCallState callSid);
  do elapsedTime <- gets (getCallElapsedTime w callSid);
  do amdResult <- gets (getAMDResult callSid);
  do stored <- gets (λ st, callTranscripts st !! callSid);
  let accumulated := accumulate stored transcript in
  run setTranscript callSid accumulated;
  (* SCENARIO 3: early human detection *)
  run when (is_state currentState INITIAL
            && (5000 <? elapsedTime) && (elapsedTime <? 35000))
    (let isEarlyHuman :=
       detectHumanSpeech transcript || detectHumanSpeech accumulated in
     let noIOS26 :=
       negb (detectIOS26Patterns transcript)
       && negb (detectIOS26Patterns accumulated) in
     do amd <- gets (getAMDResult callSid);
     let amdSaysHuman := amd_is amd "human" in
     when ((isEarlyHuman || amdSaysHuman) && noIOS26)
       (do processed <- gets (hasProcessedAction callSid "human_passthrough");
        run when processed (return_ None);
        run await (stopTranscriptionAndPassthrough w callSid);
        run setCallState callSid PASSTHROUGH;
        run markActionProcessed callSid "human_passthrough";
        return_ (Some (mkDetection true scenario3 passthrough))));
  (* timing fallback for scenario 3 *)
  run when (is_state currentState INITIAL
            && (20000 <? elapsedTime) && (elapsedTime <? 25000))
    (let noIOS26InAccumulated := negb (detectIOS26Patterns accumulated) in
     do amd <- gets (getAMDResult callSid);
     let amdNotMachine :=
       negb (amd_is amd "machine_start") && negb (amd_is amd "machine_end_beep") in
     do processed <- gets (hasProcessedAction callSid "human_passthrough_fallback");
     when (noIOS26InAccumulated && amdNotMachine && negb processed)
       (run await (stopTranscriptionAndPassthrough w callSid);
        run setCallState callSid PASSTHROUGH;
        run markActionProcessed callSid "human_passthrough_fallback";
        return_ (Some (mkDetection true scenario3_fallback passthrough))));
  (* SCENARIO 4: direct voicemail *)
  run when (is_state currentState PASSTHROUGH) (return_ None);
  run when (is_state currentState INITIAL && (elapsedTime <? 30000))
    (let isVoicemail :=
       detectVoicemailPatterns transcript || detectVoicemailPatterns accumulated in
     let noIOS26 :=
       negb (detectIOS26Patterns transcript)
       && negb (detectIOS26Patterns accumulated) in
     do amd <- gets (getAMDResult callSid);
     let amdSaysMachine :=
       amd_is amd "machine_start" || amd_is amd "machine_end_beep" in
     when ((isVoicemail || amdSaysMachine) && noIOS26)
       (do processed <- gets (hasProcessedAction callSid "voicemail_direct");
        run when processed (return_ None);
        run markActionProcessed callSid "voicemail_direct";
        run setCallState callSid VOICEMAIL_DELIVERED;
        run await (leaveVoicemailMessage w callSid voicemailMessage);
        return_ (Some (mkDetection true scenario4 voicemail))));
  (* SCENARIO 1: iOS 26 preamble, then retroactive detection *)
  run when (is_state currentState INITIAL)
    (let isIOS26 :=
       detectIOS26Patterns transcript || detectIOS26Patterns accumulated in
     run when isIOS26
       (do currentState <- gets (getCallState callSid);
        run when (is_state currentState IOS26_MONITORING) (return_ None);
        run setCallState callSid IOS26_MONITORING;
        do result <- await (playIOS26Response w callSid screeningResponse);
        run when (bool_decide (result = ABORTED)) (return_ None);
        return_ (Some (mkDetection true scenario1 ios26_response)));
     let isIntermediatePrompt := detectIntermediatePrompts transcript in
     when (isIntermediatePrompt && (elapsedTime <? 12000))
       (do currentState <- gets (getCallState callSid);
        run when (is_state currentState IOS26_MONITORING) (return_ None);
        run setCallState callSid IOS26_MONITORING;
        do result <- await (playIOS26Response w callSid screeningResponse);
        run when (bool_decide (result = ABORTED)) (return_ None);
        return_ (Some (mkDetection true scenario1_inferred ios26_response_late))));
  (* SCENARIO 2: monitoring after the iOS 26 response *)
  run when (is_state currentState IOS26_MONITORING)
    (let isIntermediatePrompt := detectIntermediatePrompts transcript in
     run when isIntermediatePrompt (return_ None);
     let isVoicemail :=
       detectVoicemailPatterns transcript || detectVoicemailPatterns accumulated in
     run when isVoicemail
       (do processed <- gets (hasProcessedAction callSid "voicemail_after_ios26");
        run when processed (return_ None);
        run markActionProcessed callSid "voicemail_after_ios26";
        run setCallState callSid VOICEMAIL_DELIVERED;
        run await (leaveVoicemailMessage w callSid voicemailMessage);
        return_ (Some (mkDetection true scenario1_voicemail voicemail)));
     let isHuman :=
       detectHumanSpeech transcript || detectHumanSpeech accumulated in
     when isHuman
       (do processed <- gets (hasProcessedAction callSid "human_after_ios26");
        run when processed (return_ None);
        run await (stopTranscriptionAndPassthrough w callSid);
        run setCallState callSid PASSTHROUGH;
        run markActionProcessed callSid "human_after_ios26";
        return_ (Some (mkDetection true scenario2 passthrough))));
  ret None.

(** ** The webhook handler *)

(** [event.TranscriptionData] after [JSON.parse]. *)
Inductive TranscriptionPayload :=
  | NoData         (* the field is missing or empty *)
  | Unparseable    (* JSON.parse throws, or the transcript is no string *)
  | ParsedTranscript (transcript : option string).
                   (* parsedData.transcript || parsedData.Transcript *)

(** A webhook; a missing [CallSid] is the empty string. *)
Record Event := mkEvent {
  CallSid : string;
  CallStatus : option string;
  AnsweredBy : option string;
  TranscriptionEvent : option string;
  TranscriptionData : TranscriptionPayload
}.

Record Context := mkContext {
  SCREENING_RESPONSE : option string;
  VOICEMAIL_MESSAGE : option string
}.

(** The TwiML handed to [callback]. *)
Inductive Response :=
  | EmptyResponse
  | ContinueResponse            (* pause 60, redirect *)
  | StartTranscriptionResponse. (* start transcription, pause 60, redirect *)

Definition truthy_opt (o : option string) : bool :=
  match o with Some s => Js.truthy s | None => false end.

Definition is_str (o : option string) (v : string) : bool :=
  bool_decide (o = Some v).

(** [a || b] on configuration strings. *)
Definition or_default (o : option string) (d : string) : string :=
  match o with Some s => if Js.truthy s then s else d | None => d end.

(** A call of a function from inside another: its early [return] ends
    the callee only. *)
Definition call {R R'} (m : Proc R R) : Proc R' R :=
  λ st, match result m st with (r, st', tr) => (Next r, st', tr) end.

Definition has_payload (p : TranscriptionPayload) : bool :=
  match p with NoData => false | _ => true end.

Definition deleteTranscript {R} (callSid : string) : Proc R unit :=
  modify (λ st,
    mkStore (callStates st) (delete callSid (callTranscripts st))
            (callStartTimes st) (amdResults st) (processedActions st)).

Definition handler (context : Context) (w : World) (event : Event)
  : Proc Response Response :=
  let callSid := CallSid event in
  let callStatus := CallStatus event in
  let amdResult := AnsweredBy event in
  let transcriptionEvent := TranscriptionEvent event in
  let transcriptionData := TranscriptionData event in
  let screeningResponse :=
    or_default (SCREENING_RESPONSE context)
      "This is Twilio calling to test iOS 26 call screening detection, I will leave a voicemail if you don't answer" in
  let voicemailMessage :=
    or_default (VOICEMAIL_MESSAGE context) "This is Twilio leaving a voicemail" in
  (* short-circuit for already processed calls *)
  run when (negb (truthy_opt transcriptionEvent) && Js.truthy callSid)
    (do state <- gets (getCallState callSid);
     when (is_state state PASSTHROUGH || is_state state VOICEMAIL_DELIVERED)
       (return_ EmptyResponse));
  (* async AMD callback *)
  run when (truthy_opt amdResult)
    (run setAMDResult callSid (default "" amdResult);
     return_ EmptyResponse);
  (* real-time transcription content *)
  run when (is_str transcriptionEvent "transcription-content"
            && has_payload transcriptionData)
    (do known <- gets (λ st, bool_decide (is_Some (callStates st !! callSid)));
     run when (negb known) (initializeCallState w callSid);
     run match transcriptionData with
         | ParsedTranscript (Some transcript) =>
             when (Js.truthy transcript && Js.truthy (Js.trim transcript))
               (do detectionResult <-
                  call (processTranscriptionWithScenarios
                          w transcript callSid screeningResponse voicemailMessage);
                match detectionResult with
                | Some d => when (detected d) (return_ EmptyResponse)
                | None => ret tt
                end)
         | ParsedTranscript None => ret tt      (* empty transcript, skipped *)
         | Unparseable => ret tt                (* caught and logged *)
         | NoData => ret tt
         end;
     return_ EmptyResponse);
  run when (is_str transcriptionEvent "transcription-started")
    (return_ EmptyResponse);
  run when (is_str transcriptionEvent "transcription-stopped")
    (run deleteTranscript callSid;
     return_ EmptyResponse);
  (* call cleanup *)
  run when (is_str callStatus "completed" || is_str callStatus "failed"
            || is_str callStatus "canceled" || is_str callStatus "no-answer")
    (run cleanupCallState callSid;
     return_ EmptyResponse);
  (* call initialization *)
  let shouldInitialize :=
    (is_str callStatus "initiated" || is_str callStatus "ringing"
     || is_str callStatus "in-progress" || is_str callStatus "answered")
    || (negb (truthy_opt callStatus) && Js.truthy callSid
        && negb (truthy_opt transcriptionEvent)) in
  run when shouldInitialize
    (do existingState <- gets (getCallState callSid);
     run when (negb (is_state existingState UNKNOWN)
               && negb (is_state existingState INITIAL))
       (return_ ContinueResponse);
     run initializeCallState w callSid;
     return_ StartTranscriptionResponse);
  (* default: continue monitoring *)
  ret ContinueResponse.

(** ** Replaying a sequence of webhooks

    One after another: the handler of a webhook has come to its end
    when the next webhook arrives.  Webhooks that arrive while a
    handler waits for a REST call are the matter of [Overlapping]. *)

Definition step (context : Context) (we : World * Event) (st : Store)
  : Store * list Effect :=
  match result (handler context (fst we) (snd we)) st with
  | (_, st', tr) => (st', tr)
  end.

(** The store after each webhook, the first being the store before. *)
Fixpoint stores (context : Context) (evs : list (World * Event)) (st : Store)
  : list Store :=
  match evs with
  | [] => [st]
  | we :: rest => st :: stores context rest (fst (step context we st))
  end.

(** Everything done while replaying, in order. *)
Fixpoint trace (context : Context) (evs : list (World * Event)) (st : Store)
  : list Effect :=
  match evs with
  | [] => []
  | we :: rest =>
      snd (step context we st) ++ trace context rest (fst (step context we st))
  end.

Definition final (context : Context) (evs : list (World * Event)) (st : Store)
  : Store :=
  foldl (λ s we, fst (step context we s)) st evs.

(** ** The three kinds of webhook *)

Definition quiet (t : Z) : World := mkWorld t FetchFailed t UpdateOk.

Definition lifecycleEvent (callSid status : string) : Event :=
  mkEvent callSid (Some status) None None NoData.

Definition amdEvent (callSid answeredBy : string) : Event :=
  mkEvent callSid None (Some answeredBy) None NoData.

Definition transcriptEvent (callSid text : string) : Event :=
  mkEvent callSid None None (Some "transcription-content")
          (ParsedTranscript (Some text)).

Definition malformedTranscriptEvent (callSid : string) : Event :=
  mkEvent callSid None None (Some "transcription-content") Unparseable.

Definition defaults : Context := mkContext None None.

(** ** Reading an effect trace *)

Definition effect_sid (e : Effect) : string :=
  match e with
  | Initialize c | SetState c _ | MarkAction c _ | Invoke c _
  | External c _ | Cleanup c => c
  end.

(** The values written to [callStates] for one call, in order; the
    deletion of the entry shows as [UNKNOWN]. *)
Definition written (c : string) (e : Effect) : option CallState :=
  match e with
  | Initialize c' => if String.eqb c' c then Some INITIAL else None
  | SetState c' s => if String.eqb c' c then Some s else None
  | Cleanup c' => if String.eqb c' c then Some UNKNOWN else None
  | _ => None
  end.

Definition observed (c : string) (tr : list Effect) : list CallState :=
  omap (written c) tr.

Definition same_action (a b : Action) : bool :=
  match a, b with
  | Identify, Identify | LeaveVoicemail, LeaveVoicemail
  | Passthrough, Passthrough => true
  | _, _ => false
  end.

Definition is_invoke (c : string) (a : Action) (e : Effect) : bool :=
  match e with
  | Invoke c' a' => String.eqb c' c && same_action a' a
  | _ => false
  end.

Definition is_mark (c : string) (e : Effect) : bool :=
  match e with MarkAction c' _ => String.eqb c' c | _ => false end.

Definition is_mark_of (c tag : string) (e : Effect) : bool :=
  match e with
  | MarkAction c' tag' => String.eqb c' c && String.eqb tag' tag
  | _ => false
  end.

Definition is_cleanup (c : string) (e : Effect) : bool :=
  match e with Cleanup c' => String.eqb c' c | _ => false end.

Definition is_update (e : Effect) : bool :=
  match e with External _ (UpdateCall _) => true | _ => false end.

Definition count (p : Effect → bool) (tr : list Effect) : nat :=
  length (List.filter p tr).

(** How often an action function was entered for a call. *)
Definition invocations (c : string) (a : Action) (tr : list Effect) : nat :=
  count (is_invoke c a) tr.

(** How often a tag was added to the call's set of processed actions. *)
Definition markings (c tag : string) (tr : list Effect) : nat :=
  count (is_mark_of c tag) tr.

(** The session of a call is deleted somewhere in the trace. *)
Definition deleted (c : string) (tr : list Effect) : bool :=
  existsb (is_cleanup c) tr.

(** ** The moves of one session *)

(** A single write [s ↦ s'] the state machine allows; deleting the
    session is always possible, creating it yields [INITIAL]. *)
Definition legal (s s' : CallState) : bool :=
  match s', s with
  | UNKNOWN, _ => true
  | INITIAL, (UNKNOWN | INITIAL) => true
  | IOS26_MONITORING, INITIAL => true
  | (PASSTHROUGH | VOICEMAIL_DELIVERED), (INITIAL | IOS26_MONITORING) => true
  | _, _ => false
  end.

Fixpoint walk (s : CallState) (ws : list CallState) : option CallState :=
  match ws with
  | [] => Some s
  | s' :: rest => if legal s s' then walk s' rest else None
  end.

(** What a session may still do: identify itself (before monitoring),
    and end in one terminal action. *)
Definition potI (s : CallState) : nat :=
  match s with UNKNOWN | INITIAL => 1 | _ => 0 end.

Definition potT (s : CallState) : nat :=
  match s with PASSTHROUGH | VOICEMAIL_DELIVERED => 0 | _ => 1 end.

Definition terminal_invocations (c : string) (tr : list Effect) : nat :=
  (invocations c LeaveVoicemail tr + invocations c Passthrough tr)%nat.

Definition evolves (c : string) (s : CallState) (tr : list Effect)
    (s' : CallState) : Prop :=
  walk s (observed c tr) = Some s'
  ∧ (deleted c tr = false →
       (invocations c Identify tr + potI s' ≤ potI s
        ∧ terminal_invocations c tr + potT s' ≤ potT s
        ∧ count (is_mark c) tr ≤ terminal_invocations c tr)%nat).

(** Forward along INITIAL → IOS26_MONITORING → PASSTHROUGH or
    VOICEMAIL_DELIVERED, or directly INITIAL → a terminal state; staying
    put counts as forward. *)
Definition forward (s s' : CallState) : Prop :=
  match s, s' with
  | INITIAL, (INITIAL | IOS26_MONITORING | PASSTHROUGH | VOICEMAIL_DELIVERED) => True
  | IOS26_MONITORING, (IOS26_MONITORING | PASSTHROUGH | VOICEMAIL_DELIVERED) => True
  | PASSTHROUGH, PASSTHROUGH => True
  | VOICEMAIL_DELIVERED, VOICEMAIL_DELIVERED => True
  | _, _ => False
  end.

(** ** The resolver as the specification words it: a priority table *)

Module SpecResolver.

Inductive Branch :=
  | EarlyHuman            (* a *)
  | TimingFallback        (* b *)
  | DirectVoicemail       (* c *)
  | PreambleDetection     (* d *)
  | RetroactiveInference  (* e *)
  | MonitoringResolution. (* f *)

Definition priority : list Branch :=
  [EarlyHuman; TimingFallback; DirectVoicemail; PreambleDetection;
   RetroactiveInference; MonitoringResolution].

(** What a transcript event sees of the session. *)
Record View := mkView {
  state : CallState;
  elapsed : Z;
  machineSignal : option string;
  text : string;
  window : string;
  fired : string → bool
}.

Definition isPreamble := detectIOS26Patterns.
Definition isIntermediatePrompt := detectIntermediatePrompts.
Definition isVoicemailGreeting := detectVoicemailPatterns.
Definition isHumanSpeech := detectHumanSpeech.

Definition machine (v : View) : bool :=
  amd_is (machineSignal v) "machine_start"
  || amd_is (machineSignal v) "machine_end_beep".

Definition preamble_seen (v : View) : bool :=
  isPreamble (text v) || isPreamble (window v).

Definition voicemail_heard (v : View) : bool :=
  isVoicemailGreeting (text v) || isVoicemailGreeting (window v).

Definition human_heard (v : View) : bool :=
  isHumanSpeech (text v) || isHumanSpeech (window v).

Definition resolves (b : Branch) (v : View) : bool :=
  match b with
  | EarlyHuman =>
      is_state (state v) INITIAL
      && ((5000 <? elapsed v) && (elapsed v <? 35000))
      && ((human_heard v || amd_is (machineSignal v) "human")
          && negb (preamble_seen v))
  | TimingFallback =>
      is_state (state v) INITIAL
      && ((20000 <? elapsed v) && (elapsed v <? 25000))
      && (negb (fired v "human_passthrough_fallback")
          && negb (isPreamble (window v))
          && negb (machine v))
  | DirectVoicemail =>
      is_state (state v) INITIAL
      && (elapsed v <? 30000)
      && ((voicemail_heard v || machine v) && negb (preamble_seen v))
  | PreambleDetection =>
      is_state (state v) INITIAL && preamble_seen v
  | RetroactiveInference =>
      is_state (state v) INITIAL
      && (isIntermediatePrompt (text v) && (elapsed v <? 12000))
  | MonitoringResolution =>
      is_state (state v) IOS26_MONITORING
      && negb (isIntermediatePrompt (text v))
      && (voicemail_heard v || human_heard v)
  end.

Definition first_resolving (v : View) : option Branch :=
  List.find (λ b, resolves b v) priority.

(** The action each branch asks of the dispatcher. *)
Definition requested (b : Branch) (v : View) : Action :=
  match b with
  | EarlyHuman | TimingFallback => Passthrough
  | DirectVoicemail => LeaveVoicemail
  | PreambleDetection | RetroactiveInference => Identify
  | MonitoringResolution =>
      if voicemail_heard v then LeaveVoicemail else Passthrough
  end.

(** The branch a detection result names. *)
Definition branch_of (d : Detection) : Branch :=
  match type d with
  | scenario3 => EarlyHuman
  | scenario3_fallback => TimingFallback
  | scenario4 => DirectVoicemail
  | scenario1 => PreambleDetection
  | scenario1_inferred => RetroactiveInference
  | scenario1_voicemail | scenario2 => MonitoringResolution
  end.

End SpecResolver.

(** The view [processTranscriptionWithScenarios] has of a store. *)
Definition view_of (w : World) (transcript callSid : string) (st : Store)
  : SpecResolver.View :=
  SpecResolver.mkView
    (getCallState callSid st)
    (getCallElapsedTime w callSid st)
    (getAMDResult callSid st)
    transcript
    (accumulate (callTranscripts st !! callSid) transcript)
    (λ tag, hasProcessedAction callSid tag st).

(** ** The transcript window as the specification words it *)

(** The chunks a transcript webhook hands on: non-empty after trimming. *)
Definition accepted (texts : list string) : list string :=
  List.filter (λ t, Js.truthy t && Js.truthy (Js.trim t)) texts.

(** The empty window and the trimmed chunks, joined by single spaces. *)
Definition space_joined (texts : list string) : string :=
  String.concat " " ("" :: map Js.trim texts).

Definition transcriptEvents (callSid : string) (chunks : list (World * string))
  : list (World * Event) :=
  map (λ wt, (fst wt, transcriptEvent callSid (snd wt))) chunks.

(** The window after one more chunk, as the handler and the resolver
    together compute it. *)
Definition slide (win t : string) : string :=
  if Js.truthy t && Js.truthy (Js.trim t) then accumulate (Some win) t else win.

(** The window of a call holds at most 300 characters. *)
Definition capped (c : string) (st : Store) : Prop :=
  (String.length (default "" (callTranscripts st !! c)) ≤ 300)%nat.

(** ** The dispatcher's pre-mutation check as the specification words it *)

(** The call is in a terminal status or was mutated less than two
    seconds ago. *)
Definition must_abort (w : World) : bool :=
  match call_fetch w with
  | FetchFailed => false
  | Fetched status dateUpdated =>
      terminal_status status
      || match dateUpdated with
         | Some updatedAt => fetch_now w - updatedAt <? 2000
         | None => false
         end
  end.

(** An action function is race-guarded when it waits 100 ms, re-reads
    the call, and on a call that must not be touched reports [ABORTED]
    without sending an update. *)
Definition race_guarded (a : Action) (f : World → string → DispatchResult * list Effect)
  : Prop :=
  ∀ w c,
    ∃ rest,
      snd (f w c) =
        Invoke c a :: External c (Delay 100) :: External c FetchCall :: rest
      ∧ (must_abort w = true → fst (f w c) = ABORTED ∧ count is_update rest = 0%nat).

(** ** Lifecycle events that (re)initialize *)

Definition initialization_status (status : string) : Prop :=
  status = "initiated" ∨ status = "ringing"
  ∨ status = "in-progress" ∨ status = "answered".

(** A lifecycle webhook of the initialization class: one of the four
    statuses, or a call id with neither status nor transcription event;
    it carries no machine-detection result and no transcription event. *)
Definition initialization_event (e : Event) : Prop :=
  truthy_opt (AnsweredBy e) = false
  ∧ truthy_opt (TranscriptionEvent e) = false
  ∧ ((∃ status, CallStatus e = Some status ∧ initialization_status status)
     ∨ (truthy_opt (CallStatus e) = false ∧ Js.truthy (CallSid e) = true)).

(** A transcript webhook whose payload cannot be parsed. *)
Definition malformed_transcript (e : Event) : Prop :=
  truthy_opt (AnsweredBy e) = false
  ∧ TranscriptionEvent e = Some "transcription-content"
  ∧ TranscriptionData e = Unparseable.

(** ** Walkthroughs *)

(** Direct answer with a bare greeting: in-progress at t=0, "hello?"
    eight seconds later. *)
Definition bare_greeting : list (World * Event) :=
  [ (quiet 1000, lifecycleEvent "CA1" "in-progress");
    (quiet 9000, transcriptEvent "CA1" "hello?") ].

(** Direct answer with an interactive question, delivered twice. *)
Definition direct_answer_twice : list (World * Event) :=
  [ (quiet 1000, lifecycleEvent "CA1" "in-progress");
    (quiet 9000, transcriptEvent "CA1" "hello, who is this?");
    (quiet 9200, transcriptEvent "CA1" "hello, who is this?") ].

(** Preamble, then a human picks up. *)
Definition preamble_then_human : list (World * Event) :=
  [ (quiet 1000, lifecycleEvent "CA1" "in-progress");
    (quiet 4000, transcriptEvent "CA1" "if you record your name and reason for calling");
    (quiet 19000, transcriptEvent "CA1" "hold on, I am here") ].

(** Preamble, then voicemail. *)
Definition preamble_then_voicemail : list (World * Event) :=
  [ (quiet 1000, lifecycleEvent "CA1" "in-progress");
    (quiet 4000, transcriptEvent "CA1" "if you record your name and reason for calling");
    (quiet 21000, transcriptEvent "CA1" "please leave a message after the tone") ].

(** The preamble is heard, the call completes, and the preamble chunk
    is delivered once more, late: the call then reads as completed. *)
Definition late_chunk_after_completion : list (World * Event) :=
  [ (quiet 1000, lifecycleEvent "CA1" "in-progress");
    (quiet 4000, transcriptEvent "CA1" "if you record your name and reason for calling");
    (quiet 5000, lifecycleEvent "CA1" "completed");
    (mkWorld 9000 (Fetched "completed" (Some 5000)) 9100 UpdateOk,
     transcriptEvent "CA1" "if you record your name and reason for calling") ].

(** A chunk that holds a preamble phrase and a voicemail phrase,
    delivered twice. *)
Definition replayed_preamble_with_greeting : list (World * Event) :=
  [ (quiet 1000, lifecycleEvent "CA1" "in-progress");
    (quiet 4000, transcriptEvent "CA1" "state your name and leave a message");
    (quiet 4200, transcriptEvent "CA1" "state your name and leave a message") ].

(** The bare greeting, and another chunk 21 seconds into the call. *)
Definition bare_greeting_then_late_chunk : list (World * Event) :=
  bare_greeting ++ [ (quiet 22000, transcriptEvent "CA1" "hello?") ].

(** Three chunks, the second one blank. *)
Definition three_chunks : list (World * string) :=
  [ (quiet 2000, "  hello there ");
    (quiet 3000, "   ");
    (quiet 4000, "who is this?") ].

(** A call that has already completed when the voicemail is about to
    be left. *)
Definition completed_call : World :=
  mkWorld 9000 (Fetched "completed" (Some 8500)) 9100 UpdateOk.

(** ** The voicemail message inside its TwiML document *)

(** [s.replace(/c/g, r)] for a pattern of one literal character. *)
Fixpoint replace_global (c : ascii) (r : string) (s : string) : string :=
  match s with
  | EmptyString => EmptyString
  | String x s' =>
      if Ascii.eqb x c then r +:+ replace_global c r s'
      else String x (replace_global c r s')
  end.

Definition double_quote : ascii := "034"%char.

(** [escapedMessage] of [leaveVoicemailMessage]: the text put inside
    the [Say] element of the document [VoicemailTwiml] stands for. *)
Definition escapedMessage (voicemailMessage : string) : string :=
  replace_global "'" "&apos;"
    (replace_global double_quote "&quot;"
       (replace_global ">" "&gt;"
          (replace_global "<" "&lt;"
             (replace_global "&" "&amp;" voicemailMessage)))).

(** The entity that stands for one character, and a text with every
    character replaced by its entity at once. *)
Definition entity (x : ascii) : string :=
  if Ascii.eqb x "&" then "&amp;"
  else if Ascii.eqb x "<" then "&lt;"
  else if Ascii.eqb x ">" then "&gt;"
  else if Ascii.eqb x double_quote then "&quot;"
  else if Ascii.eqb x "'" then "&apos;"
  else String x "".

Fixpoint escape_each (s : string) : string :=
  match s with
  | EmptyString => EmptyString
  | String x s' => entity x +:+ escape_each s'
  end.

(** The characters that open or close markup or an attribute value. *)
Definition markup (x : ascii) : bool :=
  Ascii.eqb x "<" || Ascii.eqb x ">" || Ascii.eqb x double_quote
  || Ascii.eqb x "'".

(** ** Sessions across the five maps *)

(** The store a state-changing accessor leaves. *)
Definition after (m : Proc unit unit) (st : Store) : Store := snd (fst (m st)).

(** No map holds an entry for the call. *)
Definition absent (c : string) (st : Store) : Prop :=
  callStates st !! c = None ∧ callTranscripts st !! c = None
  ∧ callStartTimes st !! c = None ∧ amdResults st !! c = None
  ∧ processedActions st !! c = None.

(** The session has reached PASSTHROUGH or VOICEMAIL_DELIVERED. *)
Definition terminal (s : CallState) : bool :=
  is_state s PASSTHROUGH || is_state s VOICEMAIL_DELIVERED.

(** The tags a session in a given state holds. *)
Definition tags_of (s : CallState) (fired : option (gset string)) : Prop :=
  match s with
  | INITIAL | IOS26_MONITORING => fired = None
  | PASSTHROUGH =>
      ∃ tag, fired = Some {[tag]}
             ∧ In tag ["human_passthrough"; "human_passthrough_fallback";
                       "human_after_ios26"]
  | VOICEMAIL_DELIVERED =>
      ∃ tag, fired = Some {[tag]}
             ∧ In tag ["voicemail_direct"; "voicemail_after_ios26"]
  | UNKNOWN => False
  end.

(** The maps agree on a call: a session has a start time and the tags
    of its state, and without a session there is neither a start time
    nor a tag. *)
Definition consistent (c : string) (st : Store) : Prop :=
  match callStates st !! c with
  | None => callStartTimes st !! c = None ∧ processedActions st !! c = None
  | Some s =>
      is_Some (callStartTimes st !! c) ∧ tags_of s (processedActions st !! c)
  end.

(** ** Webhooks that end a call *)

Definition termination_status (status : string) : Prop :=
  status = "completed" ∨ status = "failed"
  ∨ status = "canceled" ∨ status = "no-answer".

(** A lifecycle webhook with one of the four final statuses; it carries
    no machine-detection result and no transcription event. *)
Definition termination_event (e : Event) : Prop :=
  truthy_opt (AnsweredBy e) = false
  ∧ truthy_opt (TranscriptionEvent e) = false
  ∧ ∃ status, CallStatus e = Some status ∧ termination_status status.

(** What a webhook other than a transcript chunk may do. *)
Definition bookkeeping (e : Effect) : bool :=
  match e with Initialize _ | Cleanup _ => true | _ => false end.

(** A session one second old, and the session of a direct answer that
    was passed through. *)
Definition ringing_session : Store :=
  final defaults [(quiet 1000, lifecycleEvent "CA1" "in-progress")] emptyStore.

Definition passed_through_session : Store :=
  final defaults direct_answer_twice emptyStore.

(** A transcript webhook whose chunk is missing, empty or white space
    only. *)
Definition blank_chunk (e : Event) : Prop :=
  truthy_opt (AnsweredBy e) = false
  ∧ TranscriptionEvent e = Some "transcription-content"
  ∧ (TranscriptionData e = ParsedTranscript None
     ∨ ∃ t, TranscriptionData e = ParsedTranscript (Some t)
            ∧ Js.truthy t && Js.truthy (Js.trim t) = false).

(** A transcript webhook with a chunk. *)
Definition chunk_event (e : Event) : Prop :=
  truthy_opt (AnsweredBy e) = false
  ∧ TranscriptionEvent e = Some "transcription-content"
  ∧ ∃ t, TranscriptionData e = ParsedTranscript (Some t).

(** ** What a branch reports *)

(** The duplicate guard of a branch: the tag that, once fired, makes
    the branch yield null instead of acting.  The timing fallback has
    its tag in its condition, and the identification is guarded by the
    dispatcher. *)
Definition guarded (b : SpecResolver.Branch) (v : SpecResolver.View) : bool :=
  match b with
  | SpecResolver.EarlyHuman => SpecResolver.fired v "human_passthrough"
  | SpecResolver.DirectVoicemail => SpecResolver.fired v "voicemail_direct"
  | SpecResolver.MonitoringResolution =>
      if SpecResolver.voicemail_heard v
      then SpecResolver.fired v "voicemail_after_ios26"
      else SpecResolver.fired v "human_after_ios26"
  | SpecResolver.TimingFallback | SpecResolver.PreambleDetection
  | SpecResolver.RetroactiveInference => false
  end.

(** The branches that ask for the identification, whose result is null
    when the dispatcher reports ABORTED. *)
Definition identifies (b : SpecResolver.Branch) : bool :=
  match b with
  | SpecResolver.PreambleDetection | SpecResolver.RetroactiveInference => true
  | _ => false
  end.

(** The detection result each branch reports. *)
Definition reported (b : SpecResolver.Branch) (v : SpecResolver.View)
  : Detection :=
  match b with
  | SpecResolver.EarlyHuman => mkDetection true scenario3 passthrough
  | SpecResolver.TimingFallback => mkDetection true scenario3_fallback passthrough
  | SpecResolver.DirectVoicemail => mkDetection true scenario4 voicemail
  | SpecResolver.PreambleDetection => mkDetection true scenario1 ios26_response
  | SpecResolver.RetroactiveInference =>
      mkDetection true scenario1_inferred ios26_response_late
  | SpecResolver.MonitoringResolution =>
      if SpecResolver.voicemail_heard v
      then mkDetection true scenario1_voicemail voicemail
      else mkDetection true scenario2 passthrough
  end.

(** ** Handlers that overlap

    [exports.handler] is an [async] function.  At an [await] of a REST
    call it is suspended, and until the call answers other webhooks, of
    the same call too, are handled; between two such waits it runs
    alone.  The resolver awaits an action function at seven places and
    the handler awaits the resolver; they are embedded here a second
    time with these waits as suspension points.  What the awaited
    function asks of the outside world is recorded when the handler
    starts to wait; the three waits inside [playIOS26Response], which
    reads and writes none of the maps, are taken as one. *)

Module Overlapping.

(** A body that has come to its end, or that waits at an [await]: the
    store it leaves, what it has done so far and, when it waits, how it
    goes on from the store it finds when it is resumed. *)
Inductive Susp (R A : Type) : Type :=
  | Ready (f : Flow R A) (st : Store) (tr : list Effect)
  | Waiting (st : Store) (tr : list Effect) (resume : Store → Susp R A).
Arguments Ready {R A} f st tr.
Arguments Waiting {R A} st tr resume.

Definition Async (R A : Type) : Type := Store → Susp R A.

Definition having_done {R A} (tr0 : list Effect) (x : Susp R A) : Susp R A :=
  match x with
  | Ready f st tr => Ready f st (tr0 ++ tr)
  | Waiting st tr resume => Waiting st (tr0 ++ tr) resume
  end.

Fixpoint and_then {R A B} (x : Susp R A) (k : A → Async R B) : Susp R B :=
  match x with
  | Ready (Next a) st tr => having_done tr (k a st)
  | Ready (Return r) st tr => Ready (Return r) st tr
  | Waiting st tr resume => Waiting st tr (λ st', and_then (resume st') k)
  end.

Definition abind {R A B} (m : Async R A) (k : A → Async R B) : Async R B :=
  λ st, and_then (m st) k.

(** A stretch of the body without an [await]. *)
Definition atomic {R A} (m : Proc R A) : Async R A :=
  λ st, match m st with (f, st', tr) => Ready f st' tr end.

(** [await f(...)] for an action function [f]: its requests go out, the
    body waits, and it goes on with the value [f] resolves to. *)
Definition suspend {R} (call : DispatchResult * list Effect)
  : Async R DispatchResult :=
  λ st, Waiting st (snd call) (λ st', Ready (Next (fst call)) st' []).

Definition awhen {R} (b : bool) (m : Async R unit) : Async R unit :=
  if b then m else atomic (ret tt).

(** [await g(...)] for an [async] function [g] of the file: the caller
    waits where [g] waits, and an early [return] ends [g] only. *)
Fixpoint returned {R R'} (x : Susp R R) : Susp R' R :=
  match x with
  | Ready (Next r) st tr | Ready (Return r) st tr => Ready (Next r) st tr
  | Waiting st tr resume => Waiting st tr (λ st', returned (resume st'))
  end.

Definition acall {R R'} (m : Async R R) : Async R' R :=
  λ st, returned (m st).

Declare Scope async_scope.
Delimit Scope async_scope with async.
Notation "'do' x <- m ; k" := (abind m (λ x, k))
  (at level 20, x name, m at level 100, k at level 200) : async_scope.
Notation "'run' m ; k" := (abind m (λ _, k))
  (at level 20, m at level 100, k at level 200) : async_scope.

(** [processTranscriptionWithScenarios], suspended at its awaits. *)
Definition processTranscriptionWithScenarios
    (w : World) (transcript callSid screeningResponse voicemailMessage : string)
  : Async (option Detection) (option Detection) :=
  (do currentState <- atomic (gets (getCallState callSid));
   do elapsedTime <- atomic (gets (getCallElapsedTime w callSid));
   do amdResult <- atomic (gets (getAMDResult callSid));
   do stored <- atomic (gets (λ st, callTranscripts st !! callSid));
   let accumulated := accumulate stored transcript in
   run atomic (setTranscript callSid accumulated);
   (* SCENARIO 3: early human detection *)
   run awhen (is_state currentState INITIAL
              && (5000 <? elapsedTime) && (elapsedTime <? 35000))
     (let isEarlyHuman :=
        detectHumanSpeech transcript || detectHumanSpeech accumulated in
      let noIOS26 :=
        negb (detectIOS26Patterns transcript)
        && negb (detectIOS26Patterns accumulated) in
      do amd <- atomic (gets (getAMDResult callSid));
      let amdSaysHuman := amd_is amd "human" in
      awhen ((isEarlyHuman || amdSaysHuman) && noIOS26)
        (do processed <-
           atomic (gets (hasProcessedAction callSid "human_passthrough"));
         run atomic (when processed (return_ None));
         run suspend (stopTranscriptionAndPassthrough w callSid);
         run atomic (setCallState callSid PASSTHROUGH);
         run atomic (markActionProcessed callSid "human_passthrough");
         atomic (return_ (Some (mkDetection true scenario3 passthrough)))));
   (* timing fallback for scenario 3 *)
   run awhen (is_state currentState INITIAL
              && (20000 <? elapsedTime) && (elapsedTime <? 25000))
     (let noIOS26InAccumulated := negb (detectIOS26Patterns accumulated) in
      do amd <- atomic (gets (getAMDResult callSid));
      let amdNotMachine :=
        negb (amd_is amd "machine_start") && negb (amd_is amd "machine_end_beep") in
      do processed <-
        atomic (gets (hasProcessedAction callSid "human_passthrough_fallback"));
      awhen (noIOS26InAccumulated && amdNotMachine && negb processed)
        (run suspend (stopTranscriptionAndPassthrough w callSid);
         run atomic (setCallState callSid PASSTHROUGH);
         run atomic (markActionProcessed callSid "human_passthrough_fallback");
         atomic (return_ (Some (mkDetection true scenario3_fallback passthrough)))));
   (* SCENARIO 4: direct voicemail *)
   run atomic (when (is_state currentState PASSTHROUGH) (return_ None));
   run awhen (is_state currentState INITIAL && (elapsedTime <? 30000))
     (let isVoicemail :=
        detectVoicemailPatterns transcript || detectVoicemailPatterns accumulated in
      let noIOS26 :=
        negb (detectIOS26Patterns transcript)
        && negb (detectIOS26Patterns accumulated) in
      do amd <- atomic (gets (getAMDResult callSid));
      let amdSaysMachine :=
        amd_is amd "machine_start" || amd_is amd "machine_end_beep" in
      awhen ((isVoicemail || amdSaysMachine) && noIOS26)
        (do processed <-
           atomic (gets (hasProcessedAction callSid "voicemail_direct"));
         run atomic (when processed (return_ None));
         run atomic (markActionProcessed callSid "voicemail_direct");
         run atomic (setCallState callSid VOICEMAIL_DELIVERED);
         run suspend (leaveVoicemailMessage w callSid voicemailMessage);
         atomic (return_ (Some (mkDetection true scenario4 voicemail)))));
   (* SCENARIO 1: iOS 26 preamble, then retroactive detection *)
   run awhen (is_state currentState INITIAL)
     (let isIOS26 :=
        detectIOS26Patterns transcript || detectIOS26Patterns accumulated in
      run awhen isIOS26
        (do currentState <- atomic (gets (getCallState callSid));
         run atomic (when (is_state currentState IOS26_MONITORING) (return_ None));
         run atomic (setCallState callSid IOS26_MONITORING);
         do result <- suspend (playIOS26Response w callSid screeningResponse);
         run atomic (when (bool_decide (result = ABORTED)) (return_ None));
         atomic (return_ (Some (mkDetection true scenario1 ios26_response))));
      let isIntermediatePrompt := detectIntermediatePrompts transcript in
      awhen (isIntermediatePrompt && (elapsedTime <? 12000))
        (do currentState <- atomic (gets (getCallState callSid));
         run atomic (when (is_state currentState IOS26_MONITORING) (return_ None));
         run atomic (setCallState callSid IOS26_MONITORING);
         do result <- suspend (playIOS26Response w callSid screeningResponse);
         run atomic (when (bool_decide (result = ABORTED)) (return_ None));
         atomic (return_
           (Some (mkDetection true scenario1_inferred ios26_response_late)))));
   (* SCENARIO 2: monitoring after the iOS 26 response *)
   run awhen (is_state currentState IOS26_MONITORING)
     (let isIntermediatePrompt := detectIntermediatePrompts transcript in
      run atomic (when isIntermediatePrompt (return_ None));
      let isVoicemail :=
        detectVoicemailPatterns transcript || detectVoicemailPatterns accumulated in
      run awhen isVoicemail
        (do processed <-
           atomic (gets (hasProcessedAction callSid "voicemail_after_ios26"));
         run atomic (when processed (return_ None));
         run atomic (markActionProcessed callSid "voicemail_after_ios26");
         run atomic (setCallState callSid VOICEMAIL_DELIVERED);
         run suspend (leaveVoicemailMessage w callSid voicemailMessage);
         atomic (return_ (Some (mkDetection true scenario1_voicemail voicemail))));
      let isHuman :=
        detectHumanSpeech transcript || detectHumanSpeech accumulated in
      awhen isHuman
        (do processed <-
           atomic (gets (hasProcessedAction callSid "human_after_ios26"));
         run atomic (when processed (return_ None));
         run suspend (stopTranscriptionAndPassthrough w callSid);
         run atomic (setCallState callSid PASSTHROUGH);
         run atomic (markActionProcessed callSid "human_after_ios26");
         atomic (return_ (Some (mkDetection true scenario2 passthrough)))));
   atomic (ret None))%async.

(** [exports.handler], suspended where the resolver is. *)
Definition handler (context : Context) (w : World) (event : Event)
  : Async Response Response :=
  let callSid := CallSid event in
  let callStatus := CallStatus event in
  let amdResult := AnsweredBy event in
  let transcriptionEvent := TranscriptionEvent event in
  let transcriptionData := TranscriptionData event in
  let screeningResponse :=
    or_default (SCREENING_RESPONSE context)
      "This is Twilio calling to test iOS 26 call screening detection, I will leave a voicemail if you don't answer" in
  let voicemailMessage :=
    or_default (VOICEMAIL_MESSAGE context) "This is Twilio leaving a voicemail" in
  ((* short-circuit for already processed calls *)
   run atomic (when (negb (truthy_opt transcriptionEvent) && Js.truthy callSid)
     (do state <- gets (getCallState callSid);
      when (is_state state PASSTHROUGH || is_state state VOICEMAIL_DELIVERED)
        (return_ EmptyResponse))%proc);
   (* async AMD callback *)
   run atomic (when (truthy_opt amdResult)
     (run setAMDResult callSid (default "" amdResult);
      return_ EmptyResponse)%proc);
   (* real-time transcription content *)
   run awhen (is_str transcriptionEvent "transcription-content"
              && has_payload transcriptionData)
     (do known <-
        atomic (gets (λ st, bool_decide (is_Some (callStates st !! callSid))));
      run atomic (when (negb known) (initializeCallState w callSid));
      run match transcriptionData with
          | ParsedTranscript (Some transcript) =>
              awhen (Js.truthy transcript && Js.truthy (Js.trim transcript))
                (do detectionResult <-
                   acall (processTranscriptionWithScenarios
                            w transcript callSid screeningResponse voicemailMessage);
                 atomic (match detectionResult with
                         | Some d => when (detected d) (return_ EmptyResponse)
                         | None => ret tt
                         end))
          | ParsedTranscript None => atomic (ret tt)
          | Unparseable => atomic (ret tt)
          | NoData => atomic (ret tt)
          end;
      atomic (return_ EmptyResponse));
   atomic
     (run when (is_str transcriptionEvent "transcription-started")
        (return_ EmptyResponse);
      run when (is_str transcriptionEvent "transcription-stopped")
        (run deleteTranscript callSid;
         return_ EmptyResponse);
      (* call cleanup *)
      run when (is_str callStatus "completed" || is_str callStatus "failed"
                || is_str callStatus "canceled" || is_str callStatus "no-answer")
        (run cleanupCallState callSid;
         return_ EmptyResponse);
      (* call initialization *)
      let shouldInitialize :=
        (is_str callStatus "initiated" || is_str callStatus "ringing"
         || is_str callStatus "in-progress" || is_str callStatus "answered")
        || (negb (truthy_opt callStatus) && Js.truthy callSid
            && negb (truthy_opt transcriptionEvent)) in
      run when shouldInitialize
        (do existingState <- gets (getCallState callSid);
         run when (negb (is_state existingState UNKNOWN)
                   && negb (is_state existingState INITIAL))
           (return_ ContinueResponse);
         run initializeCallState w callSid;
         return_ StartTranscriptionResponse);
      (* default: continue monitoring *)
      ret ContinueResponse)%proc)%async.

(** Every wait ends at once: the body goes on from the store it left. *)
Fixpoint straight {R A} (x : Susp R A) : Flow R A * Store * list Effect :=
  match x with
  | Ready f st tr => (f, st, tr)
  | Waiting st tr resume =>
      match straight (resume st) with
      | (f, st', tr') => (f, st', tr ++ tr')
      end
  end.

(** The waits end in turn with the stores of the list: what the body
    yields and does when other handlers have changed the maps while it
    waited.  A wait for which no store is listed ends at once. *)
Fixpoint resumed {R A} (found : list Store) (x : Susp R A)
  : Flow R A * list Effect :=
  match x with
  | Ready f _ tr => (f, tr)
  | Waiting st tr resume =>
      match resumed (tail found) (resume (default st (head found))) with
      | (f, tr') => (f, tr ++ tr')
      end
  end.

(** The process: the maps, the handlers that wait, in the order in
    which they began to wait, and all that has been done. *)
Record System := mkSystem {
  current : Store;
  suspended : list (Store → Susp Response Response);
  log : list Effect
}.

Definition idle (st : Store) : System := mkSystem st [] [].

(** What happens next: a webhook arrives and its handler runs to its
    first wait or to its end; or the REST call of a waiting handler
    answers and the handler runs on to its next wait or to its end. *)
Inductive Move :=
  | Arrive (w : World) (event : Event)
  | Resume (n : nat).

Definition land (others : list (Store → Susp Response Response))
    (before : list Effect) (x : Susp Response Response) : System :=
  match x with
  | Ready _ st tr => mkSystem st others (before ++ tr)
  | Waiting st tr resume => mkSystem st (others ++ [resume]) (before ++ tr)
  end.

Definition move (context : Context) (m : Move) (sys : System) : System :=
  match m with
  | Arrive w event =>
      land (suspended sys) (log sys) (handler context w event (current sys))
  | Resume n =>
      match suspended sys !! n with
      | Some resume =>
          land (delete n (suspended sys)) (log sys) (resume (current sys))
      | None => sys
      end
  end.

Definition play (context : Context) (ms : list Move) (sys : System) : System :=
  foldl (λ s m, move context m s) sys ms.

End Overlapping.

(** ** Overlapping webhooks of one call *)

(** The direct answer is delivered twice, the second time while the
    first handler waits for its passthrough to be sent; then both go
    on. *)
Definition duplicate_while_waiting : list Overlapping.Move :=
  [ Overlapping.Arrive (quiet 1000) (lifecycleEvent "CA1" "in-progress");
    Overlapping.Arrive (quiet 9000) (transcriptEvent "CA1" "hello, who is this?");
    Overlapping.Arrive (quiet 9200) (transcriptEvent "CA1" "hello, who is this?");
    Overlapping.Resume 0;
    Overlapping.Resume 0 ].

(** The direct answer is followed by a voicemail phrase while the
    handler of the first chunk waits for its passthrough to be sent. *)
Definition greeting_while_waiting : list Overlapping.Move :=
  [ Overlapping.Arrive (quiet 1000) (lifecycleEvent "CA1" "in-progress");
    Overlapping.Arrive (quiet 9000) (transcriptEvent "CA1" "hello, who is this?");
    Overlapping.Arrive (quiet 9300)
      (transcriptEvent "CA1" "please leave a message after the tone");
    Overlapping.Resume 0;
    Overlapping.Resume 0 ].

(** The same webhooks, each handled to its end before the next. *)
Definition duplicate_one_after_another : list Overlapping.Move :=
  [ Overlapping.Arrive (quiet 1000) (lifecycleEvent "CA1" "in-progress");
    Overlapping.Arrive (quiet 9000) (transcriptEvent "CA1" "hello, who is this?");
    Overlapping.Resume 0;
    Overlapping.Arrive (quiet 9200) (transcriptEvent "CA1" "hello, who is this?") ].




(** * Properties *)

(** ** The string primitives on small inputs *)

Example toLowerCase_mixed : Js.toLowerCase "Hello, WHO is this?" = "hello, who is this?".
Proof. reflexivity. Qed.

Example trim_both_ends : Js.trim "  stay on  the line  " = "stay on  the line".
Proof. reflexivity. Qed.

Example trim_blank : Js.trim "   " = "".
Proof. reflexivity. Qed.

Example split_leading_space : Js.split_ws_length " hello  there" = 3%nat.
Proof. reflexivity. Qed.

Example split_empty : Js.split_ws_length "" = 1%nat.
Proof. reflexivity. Qed.

Example slice_last_long : Js.slice_last 3 "abcdef" = "def".
Proof. reflexivity. Qed.

Example slice_last_whole : Js.slice_last 300 "abc" = "abc".
Proof. reflexivity. Qed.

Example includes_inside : Js.includes "please leave a message" "leave a" = true.
Proof. reflexivity. Qed.

Example includes_absent : Js.includes "record your name" "recording" = false.
Proof. reflexivity. Qed.

(** ** The pattern classifier *)

(** C8. The classifier truth table of the specification: the preamble
    phrase is a preamble, the standard prompt is a voicemail greeting,
    the short follow-up is an intermediate prompt while the twelve-word
    sentence is not, "hello, who is this?" is human speech and the
    "you've reached the voicemail" greeting is not. *)
Theorem classifier_truth_table :
  detectIOS26Patterns "if you record your name and reason for calling" = true
  ∧ detectVoicemailPatterns "please leave a message after the tone" = true
  ∧ detectIntermediatePrompts "thanks, stay on the line" = true
  ∧ detectIntermediatePrompts
      "thanks for calling, this is a long sentence about something else entirely"
    = false
  ∧ detectHumanSpeech "hello, who is this?" = true
  ∧ detectHumanSpeech
      "you've reached the voicemail of John, please leave a message"
    = false.
Proof. repeat split; vm_compute; reflexivity. Qed.

(** The reason for the fourth row: the sentence splits into twelve
    words. *)
Example long_sentence_word_count :
  Js.split_ws_length
    "thanks for calling, this is a long sentence about something else entirely"
  = 12%nat.
Proof. reflexivity. Qed.

(** A bare greeting carries none of the interactive markers, and its
    question mark comes with no interrogative word. *)
Example bare_greeting_not_human : detectHumanSpeech "hello?" = false.
Proof. vm_compute; reflexivity. Qed.

(** ** The action dispatcher *)

Lemma playIOS26Response_guarded message :
  race_guarded Identify (λ w c, playIOS26Response w c message).
Proof.
  intros w c. unfold playIOS26Response, must_abort.
  destruct (call_fetch w) as [|status [updatedAt|]]; cbn [fst snd];
    repeat case_match; cbn [fst snd app];
    eexists; (split; [reflexivity|]); intros Hab; try discriminate Hab;
    cbn in Hab; try discriminate Hab; split; reflexivity.
Qed.

(** C5, as the code has it. Only the identification
    ([playIOS26Response]) is race-guarded: it waits 100 ms, re-reads the
    call and reports [ABORTED] without sending an update when the call
    is in a terminal status or was updated less than two seconds ago.
    Leaving a voicemail and passing the call through send their update
    at once, whatever the call's status, and report nothing. *)
Theorem dispatcher_race_guard :
  (∀ message, race_guarded Identify (λ w c, playIOS26Response w c message))
  ∧ (∀ w c message,
       leaveVoicemailMessage w c message =
         (Undefined,
          [Invoke c LeaveVoicemail;
           External c (UpdateCall (VoicemailTwiml message))]))
  ∧ (∀ w c,
       stopTranscriptionAndPassthrough w c =
         (Undefined, [Invoke c Passthrough; External c (UpdateCall StopTwiml)])).
Proof.
  split; [exact playIOS26Response_guarded|]. split; reflexivity.
Qed.

(** C5, refuted as stated: on a call that has already completed,
    [leaveVoicemailMessage] neither waits nor re-reads the call, and it
    sends the update instead of reporting [ABORTED]. *)
Lemma leaveVoicemail_not_guarded :
  ¬ race_guarded LeaveVoicemail
      (λ w c, leaveVoicemailMessage w c "This is Twilio leaving a voicemail").
Proof.
  intros H. destruct (H completed_call "CA1") as (rest & Htr & _).
  cbn in Htr. discriminate Htr.
Qed.

(** ** Walkthroughs, evaluated *)

(** C6, evaluated on the code. After in-progress at t=0 and the chunk
    "hello?" at t=8 s, with no preamble and no machine-detection
    result, the resolver has invoked no action and the session is still
    INITIAL: "hello?" is not classified as human speech. *)
Theorem bare_greeting_keeps_monitoring :
  getCallState "CA1" (final defaults bare_greeting emptyStore) = INITIAL
  ∧ trace defaults bare_greeting emptyStore = [Initialize "CA1"]
  ∧ invocations "CA1" Passthrough (trace defaults bare_greeting emptyStore) = 0%nat.
Proof. vm_compute. repeat split; reflexivity. Qed.

(** C4, evaluated on the code. When a human is detected, directly or
    after the preamble, [stopTranscriptionAndPassthrough] is entered and
    sends its update first; only then is the state set to PASSTHROUGH
    and the tag added.  The voicemail branch does it the other way
    round. *)
Theorem passthrough_precedes_marking :
  trace defaults direct_answer_twice emptyStore =
    [ Initialize "CA1";
      Invoke "CA1" Passthrough; External "CA1" (UpdateCall StopTwiml);
      SetState "CA1" PASSTHROUGH; MarkAction "CA1" "human_passthrough" ]
  ∧ trace defaults preamble_then_human emptyStore =
    [ Initialize "CA1";
      SetState "CA1" IOS26_MONITORING;
      Invoke "CA1" Identify; External "CA1" (Delay 100);
      External "CA1" FetchCall;
      External "CA1" (UpdateCall (IdentifyTwiml
        "This is Twilio calling to test iOS 26 call screening detection, I will leave a voicemail if you don't answer"));
      Invoke "CA1" Passthrough; External "CA1" (UpdateCall StopTwiml);
      SetState "CA1" PASSTHROUGH; MarkAction "CA1" "human_after_ios26" ]
  ∧ trace defaults preamble_then_voicemail emptyStore =
    [ Initialize "CA1";
      SetState "CA1" IOS26_MONITORING;
      Invoke "CA1" Identify; External "CA1" (Delay 100);
      External "CA1" FetchCall;
      External "CA1" (UpdateCall (IdentifyTwiml
        "This is Twilio calling to test iOS 26 call screening detection, I will leave a voicemail if you don't answer"));
      MarkAction "CA1" "voicemail_after_ios26";
      SetState "CA1" VOICEMAIL_DELIVERED;
      Invoke "CA1" LeaveVoicemail;
      External "CA1" (UpdateCall (VoicemailTwiml "This is Twilio leaving a voicemail")) ].
Proof. vm_compute. repeat split; reflexivity. Qed.

(** What becomes of the bare greeting: a chunk arriving between 20 and
    25 seconds passes the call through by the timing fallback. *)
Example bare_greeting_caught_by_fallback :
  trace defaults bare_greeting_then_late_chunk emptyStore =
    [ Initialize "CA1";
      Invoke "CA1" Passthrough; External "CA1" (UpdateCall StopTwiml);
      SetState "CA1" PASSTHROUGH;
      MarkAction "CA1" "human_passthrough_fallback" ].
Proof. vm_compute. reflexivity. Qed.

(** Within one session a replayed chunk repeats no action, but it is
    read again in the state the session has reached: here the replay
    of the chunk that triggered the identification leaves the
    voicemail. *)
Example replay_moves_on :
  trace defaults replayed_preamble_with_greeting emptyStore =
    [ Initialize "CA1";
      SetState "CA1" IOS26_MONITORING;
      Invoke "CA1" Identify; External "CA1" (Delay 100);
      External "CA1" FetchCall;
      External "CA1" (UpdateCall (IdentifyTwiml
        "This is Twilio calling to test iOS 26 call screening detection, I will leave a voicemail if you don't answer"));
      MarkAction "CA1" "voicemail_after_ios26";
      SetState "CA1" VOICEMAIL_DELIVERED;
      Invoke "CA1" LeaveVoicemail;
      External "CA1" (UpdateCall (VoicemailTwiml "This is Twilio leaving a voicemail")) ].
Proof. vm_compute. reflexivity. Qed.

(** ** Running the resolver symbolically *)

(** [playIOS26Response] always enters, waits and fetches; it may or may
    not send its update. *)
Lemma play_cases w c m :
  ∃ r (sent : bool),
    playIOS26Response w c m =
      (r, [Invoke c Identify; External c (Delay 100); External c FetchCall]
          ++ (if sent then [External c (UpdateCall (IdentifyTwiml m))] else [])).
Proof.
  unfold playIOS26Response.
  destruct (call_fetch w) as [|status [u|]]; repeat case_match;
    try (eexists _, true; reflexivity); try (eexists _, false; reflexivity).
Qed.

(** Unfold the resolver and the monad, leaving the classifiers, the
    elapsed time and the dispatcher as they are. *)
Ltac exec :=
  cbv beta iota zeta delta
    [result processTranscriptionWithScenarios bind when ret return_
     gets modify emit await setCallState markActionProcessed
     setTranscript fst snd stopTranscriptionAndPassthrough
     leaveVoicemailMessage getCallState getAMDResult hasProcessedAction
     callStates callTranscripts callStartTimes amdResults processedActions].

(** Resolve the reads of the maps with what is known of them. *)
Ltac reads :=
  rewrite ?lookup_insert_eq;
  repeat match goal with
         | H : ?m !! ?k = _ |- context [?m !! ?k] => rewrite H
         end;
  cbn [is_state andb orb negb default from_option id].

(** Branch on the next undecided condition. *)
Ltac split_if :=
  match goal with
  | |- context [if ?b then _ else _] =>
      lazymatch type of b with bool => idtac end;
      lazymatch b with true => fail | false => fail | _ => idtac end;
      destruct b eqn:?
  end.

Ltac norm := repeat (progress (cbv beta iota zeta; reads)).

Ltac exec_all := exec; norm; repeat (split_if; norm).

(** Evaluate the counters and the walk on an explicit trace. *)
Ltac tally :=
  unfold evolves, terminal_invocations, invocations, markings, count, deleted,
    observed;
  repeat (progress
    (cbn [app omap written walk legal existsb is_cleanup List.filter is_invoke
          is_mark is_mark_of length potI potT mbind option_bind list_omap
          same_action andb orb];
     rewrite ?String.eqb_refl)).

(** Every path through the resolver, by the state of the call. *)
Ltac resolver_paths st c w sr :=
  let cs := fresh "cs" in
  destruct st as [cs ? ? ? ?];
  let Hc := fresh "Hc" in
  destruct (cs !! c) as [[]|] eqn:Hc;
  let Hplay := fresh "Hplay" in
  destruct (play_cases w c sr) as (? & sent & Hplay);
  exec_all; rewrite ?Hplay; try destruct sent.

(** One run of the resolver moves the session legally and within its
    budget of actions. *)
Lemma process_evolves w t c sr vm st :
  match result (processTranscriptionWithScenarios w t c sr vm) st with
  | (_, st', tr) => evolves c (getCallState c st) tr (getCallState c st')
  end.
Proof.
  resolver_paths st c w sr; tally;
    (split; [reflexivity | intros _; lia]).
Qed.

(** What one run of the resolver touches: the window of its call,
    always; the state and the processed actions of its call, possibly;
    nothing else. *)
Lemma process_frame w t c sr vm st :
  match result (processTranscriptionWithScenarios w t c sr vm) st with
  | (_, st', tr) =>
      Forall (λ e, effect_sid e = c) tr
      ∧ callStartTimes st' = callStartTimes st
      ∧ amdResults st' = amdResults st
      ∧ callTranscripts st' =
          <[c := accumulate (callTranscripts st !! c) t]> (callTranscripts st)
      ∧ (is_Some (callStates st !! c) → is_Some (callStates st' !! c))
      ∧ ∀ c', c' ≠ c →
          callStates st' !! c' = callStates st !! c'
          ∧ processedActions st' !! c' = processedActions st !! c'
  end.
Proof.
  resolver_paths st c w sr; cbn [app];
    (split; [repeat constructor|]); (split; [reflexivity|]);
    (split; [reflexivity|]); (split; [reflexivity|]);
    (split; [rewrite ?lookup_insert_eq, ?Hc; eauto|]);
    intros c' Hne; rewrite ?lookup_insert_ne by done; done.
Qed.

(** The order of marking and acting, on every input: a passthrough is
    always sent before the state is set and the tag added, a voicemail
    always after. *)
Lemma resolver_action_order w t c sr vm st :
  match result (processTranscriptionWithScenarios w t c sr vm) st with
  | (_, _, tr) =>
      (invocations c Passthrough tr = 1%nat →
         ∃ tag, tr = [ Invoke c Passthrough; External c (UpdateCall StopTwiml);
                       SetState c PASSTHROUGH; MarkAction c tag ])
      ∧ (invocations c LeaveVoicemail tr = 1%nat →
           ∃ tag, tr = [ MarkAction c tag; SetState c VOICEMAIL_DELIVERED;
                         Invoke c LeaveVoicemail;
                         External c (UpdateCall (VoicemailTwiml vm)) ])
  end.
Proof.
  resolver_paths st c w sr; cbn [app]; tally;
    (split; intros H; first [discriminate H | eexists; reflexivity]).
Qed.

(** ** The order of the branches *)

(** The fallback's condition, in the order the specification lists it
    and in the order the source tests it. *)
Lemma fallback_condition (f i m1 m2 : bool) :
  negb f && negb i && negb (m1 || m2) = negb i && (negb m1 && negb m2) && negb f.
Proof. destruct f, i, m1, m2; reflexivity. Qed.

(** Decide the table's conditions with those met on the path. *)
Ltac use_conditions :=
  repeat match goal with
         | H : ?b = true |- context [?b] => rewrite H
         | H : ?b = false |- context [?b] => rewrite H
         end;
  cbn [andb orb negb].

Ltac use_conditions_in HF :=
  repeat match goal with
         | H : _ = true |- _ => rewrite H in HF
         | H : _ = false |- _ => rewrite H in HF
         end;
  cbn [andb orb negb] in HF.

Import SpecResolver.

Ltac unfold_view :=
  unfold view_of, voicemail_heard, isVoicemailGreeting;
  cbn [state elapsed machineSignal text window fired
       callStates callTranscripts callStartTimes amdResults processedActions].

(** C3. On a transcript event the resolver behaves as the priority
    table (a) early human, (b) timing fallback, (c) direct voicemail,
    (d) preamble detection, (e) retroactive inference, (f) monitoring
    resolution, read in this order.  The first branch whose condition
    holds is the one that is evaluated, and it ends the evaluation: its
    action is invoked exactly once and its detection result is
    returned, null taking its place when the identification is
    reported ABORTED; or, its tag having fired already, the branch
    yields null and nothing is done.  No action of any other branch is
    invoked.  A detection result always comes from that first branch,
    and when no condition holds the result is null and nothing is
    done. *)
Theorem scenario_priority_order w t c sr vm st :
  let v := view_of w t c st in
  match result (processTranscriptionWithScenarios w t c sr vm) st with
  | (r, _, tr) =>
      (∀ d, r = Some d →
         first_resolving v = Some (branch_of d)
         ∧ invocations c (requested (branch_of d) v) tr = 1%nat)
      ∧ (first_resolving v = None → r = None ∧ tr = [])
      ∧ (∀ b a, first_resolving v = Some b →
           same_action a (requested b v) = false → invocations c a tr = 0%nat)
      ∧ (∀ b, first_resolving v = Some b →
           if guarded b v then r = None ∧ tr = []
           else
             invocations c (requested b v) tr = 1%nat
             ∧ r = if identifies b
                      && bool_decide (fst (playIOS26Response w c sr) = ABORTED)
                   then None else Some (reported b v))
  end.
Proof.
  intros v. remember (first_resolving v) as F eqn:HF.
  destruct st as [cs ts ss as_ ps].
  destruct (cs !! c) as [[]|] eqn:Hc.
  all: destruct (play_cases w c sr) as (x & sent & Hplay).
  all: exec_all; rewrite ?Hplay.
  all: unfold first_resolving, priority, List.find, resolves in HF;
    subst v; unfold requested, guarded, reported, identifies; unfold_view;
    unfold view_of, machine, preamble_seen, voicemail_heard, human_heard,
      isPreamble, isIntermediatePrompt, isVoicemailGreeting, isHumanSpeech in HF;
    cbn [state elapsed machineSignal text window fired] in HF;
    unfold getCallState, getAMDResult, hasProcessedAction in HF;
    cbn [callStates callTranscripts callStartTimes amdResults processedActions]
      in HF;
    rewrite ?Hc in HF;
    cbn [is_state andb orb negb default from_option id] in HF;
    rewrite ?fallback_condition, ?negb_orb in HF;
    use_conditions_in HF; subst F.
  all: split;
    [ intros d Hd;
      first [ discriminate Hd
            | injection Hd as <-; cbn [type branch_of]; use_conditions;
              try destruct sent; (split; [reflexivity | tally; reflexivity]) ]
    | split;
      [ intros Hf; first [ discriminate Hf | split; reflexivity ]
      | split;
        [ intros b a Hb Ha;
          first [ discriminate Hb
                | injection Hb as <-; revert Ha; use_conditions; intros Ha;
                  destruct a; try discriminate Ha; try destruct sent;
                  tally; reflexivity ]
        | intros b Hb;
          first [ discriminate Hb
                | injection Hb as <-;
                  unfold hasProcessedAction;
                  cbn [processedActions fst snd andb];
                  use_conditions;
                  first [ split; reflexivity
                        | try destruct sent;
                          (split; [tally; reflexivity | reflexivity]) ] ] ] ] ].
Qed.
(** The direct answer "hello, who is this?" eight seconds into the call:
    the early-human branch is the first whose condition holds, no tag
    has fired, and the resolver reports scenario 3 after one
    passthrough. *)
Lemma scenario_priority_order_witness :
  let st := final defaults [(quiet 1000, lifecycleEvent "CA1" "in-progress")] emptyStore in
  let v := view_of (quiet 9000) "hello, who is this?" "CA1" st in
  let outcome := result (processTranscriptionWithScenarios (quiet 9000)
                           "hello, who is this?" "CA1" "" "") st in
  first_resolving v = Some EarlyHuman
  ∧ fst (fst outcome) = Some (mkDetection true scenario3 passthrough)
  ∧ invocations "CA1" Passthrough (snd outcome) = 1%nat.
Proof.
  intros st v outcome.
  pose proof (scenario_priority_order (quiet 9000) "hello, who is this?" "CA1"
                "" "" st) as H.
  fold v in H. fold outcome in H.
  destruct outcome as [[r st'] tr].
  destruct H as (_ & _ & _ & H).
  assert (Hf : first_resolving v = Some EarlyHuman) by (vm_compute; reflexivity).
  specialize (H EarlyHuman Hf).
  assert (Hg : guarded EarlyHuman v = false) by (vm_compute; reflexivity).
  rewrite Hg in H. cbn [identifies andb reported requested] in H.
  destruct H as [Hi ->].
  split; [exact Hf|]. split; [reflexivity | exact Hi].
Defined.

(** ** Traces compose *)

Lemma walk_app s l1 l2 :
  walk s (l1 ++ l2) = match walk s l1 with Some s1 => walk s1 l2 | None => None end.
Proof.
  revert s; induction l1 as [|x l1 IH]; intros s; cbn; [reflexivity|].
  destruct (legal s x); [apply IH | reflexivity].
Qed.

Lemma observed_app c tr1 tr2 :
  observed c (tr1 ++ tr2) = observed c tr1 ++ observed c tr2.
Proof. unfold observed. apply omap_app. Qed.

Lemma count_app p tr1 tr2 : count p (tr1 ++ tr2) = (count p tr1 + count p tr2)%nat.
Proof. unfold count. rewrite List.filter_app, length_app. reflexivity. Qed.

Lemma deleted_app c tr1 tr2 :
  deleted c (tr1 ++ tr2) = deleted c tr1 || deleted c tr2.
Proof. unfold deleted. apply existsb_app. Qed.

(** Legal evolutions compose: the walk continues and the budgets
    telescope. *)
Lemma evolves_app c s tr1 s1 tr2 s2 :
  evolves c s tr1 s1 → evolves c s1 tr2 s2 → evolves c s (tr1 ++ tr2) s2.
Proof.
  intros [Hw1 Hb1] [Hw2 Hb2]. split.
  - rewrite observed_app, walk_app, Hw1. exact Hw2.
  - rewrite deleted_app. intros [Hd1 Hd2]%orb_false_iff.
    specialize (Hb1 Hd1). specialize (Hb2 Hd2).
    unfold terminal_invocations, invocations in *.
    rewrite !count_app. lia.
Qed.

Lemma foreign_effect c e :
  effect_sid e ≠ c →
  written c e = None ∧ is_cleanup c e = false ∧ is_mark c e = false
  ∧ ∀ a, is_invoke c a e = false.
Proof.
  intros Hne.
  destruct e as [c'|c' ?|c' ?|c' ?|c' ?|c']; cbn in *;
    apply String.eqb_neq in Hne; rewrite ?Hne; repeat split; reflexivity.
Qed.

(** Effects of other calls leave a session where it is. *)
Lemma evolves_foreign c s tr :
  Forall (λ e, effect_sid e ≠ c) tr → evolves c s tr s.
Proof.
  induction 1 as [|e tr He Htr IH].
  - split; [reflexivity|]. intros _. cbn. lia.
  - change (e :: tr) with ([e] ++ tr). eapply evolves_app; [|exact IH].
    destruct (foreign_effect c e He) as (Hw & Hc & Hm & Hi).
    unfold evolves, terminal_invocations, invocations, count, deleted, observed.
    cbn. rewrite Hw, Hc, Hm, !Hi. cbn. split; [reflexivity|]. intros _. lia.
Qed.

(** ** Running the handler symbolically *)

(** Unfold the handler, keeping the call of the resolver folded. *)
Ltac hexec :=
  unfold step; unfold result; unfold handler;
  cbn [CallSid CallStatus AnsweredBy TranscriptionEvent TranscriptionData fst snd];
  cbv beta iota zeta delta
    [bind when ret return_ gets modify emit call setAMDResult
     initializeCallState cleanupCallState deleteTranscript has_payload
     getCallState].

Lemma known_Some {A} (x : A) : bool_decide (is_Some (Some x)) = true.
Proof. apply bool_decide_eq_true. eauto. Qed.

Lemma known_None {A} : bool_decide (is_Some (@None A)) = false.
Proof. apply bool_decide_eq_false. intros [? ?]; discriminate. Qed.

Ltac hreads_in H :=
  unfold getCallState in H;
  cbn [callStates callTranscripts callStartTimes amdResults processedActions] in H;
  rewrite ?lookup_insert_eq in H;
  repeat match type of H with
         | context [?m !! ?k] =>
             match goal with E : m !! k = _ |- _ => rewrite E in H end
         end;
  cbn [default from_option id] in H.

(** At the call of the resolver, take its result as given and recall
    what is proved of it. *)
Ltac split_call :=
  match goal with
  | |- context [result (processTranscriptionWithScenarios ?w ?t ?c ?sr ?vm) ?st] =>
      let H := fresh "Hrun" in
      pose proof (process_evolves w t c sr vm st) as H;
      let F := fresh "Hframe" in
      pose proof (process_frame w t c sr vm st) as F;
      destruct (result (processTranscriptionWithScenarios w t c sr vm) st)
        as [[? ?] ?];
      hreads_in H
  end.

(** Evaluate the tests on literal fields. *)
Ltac ground :=
  repeat match goal with
         | |- context [is_str ?o ?v] =>
             let b := eval vm_compute in (is_str o v) in
             lazymatch b with
             | true => change (is_str o v) with true
             | false => change (is_str o v) with false
             end
         | |- context [truthy_opt ?o] =>
             let b := eval vm_compute in (truthy_opt o) in
             lazymatch b with
             | true => change (truthy_opt o) with true
             | false => change (truthy_opt o) with false
             end
         end.

Ltac hnorm :=
  repeat (progress
    (cbv beta iota zeta; ground;
     rewrite ?lookup_insert_eq, ?lookup_delete_eq, ?known_Some, ?known_None;
     repeat match goal with
            | H : ?m !! ?k = _ |- context [?m !! ?k] => rewrite H
            | H : ?b = true |- context [?b] => rewrite H
            | H : ?b = false |- context [?b] => rewrite H
            end;
     cbn [is_state andb orb negb default from_option id fst snd
          callStates callTranscripts callStartTimes amdResults
          processedActions])).

Ltac split_opt :=
  match goal with
  | |- context [match ?o with Some _ => _ | None => _ end] =>
      is_var o; destruct o
  end.

Ltac split_payload :=
  match goal with
  | |- context [match ?p with NoData => _ | Unparseable => _ | ParsedTranscript _ => _ end] =>
      is_var p; destruct p as [| |[?|]]
  end.

(** Every path through the handler. *)
Ltac handler_paths e st :=
  destruct st as [cs ts ss as_ ps];
  destruct e as [c status amd tev data];
  hexec; hnorm;
  repeat (first [split_call | split_opt | split_payload | split_if]; hnorm).

(** Split on the entry of the call in [callStates], dropping the paths
    the entry rules out. *)
Ltac by_state cs c :=
  let Hc := fresh "Hc" in
  destruct (cs !! c) as [[]|] eqn:Hc;
  repeat match goal with
         | H : context [is_state] |- _ => cbn [is_state andb orb negb default from_option id] in H
         | H : context [bool_decide (is_Some _)] |- _ => rewrite ?known_Some, ?known_None in H; cbn [negb] in H
         | H : true = false |- _ => discriminate H
         | H : false = true |- _ => discriminate H
         end;
  cbn [default from_option id] in *.

Ltac settle := tally; (split; [reflexivity | intros Hd; first [discriminate Hd | lia]]).

(** A webhook moves the session of its own call legally. *)
Lemma step_own_paths ctx w e st :
  match step ctx (w, e) st with
  | (st', tr) =>
      evolves (CallSid e) (getCallState (CallSid e) st) tr
        (getCallState (CallSid e) st')
  end.
Proof.
  handler_paths e st.
  all: rewrite ?app_nil_r; cbn [app CallSid].
  all: by_state cs c.
  all: try settle.
  all: try exact Hrun.
  all: try (eapply (evolves_app _ _ [Initialize _]); [|exact Hrun]; settle).
Qed.

Lemma step_own ctx w e st :
  evolves (CallSid e) (getCallState (CallSid e) st)
    (snd (step ctx (w, e) st))
    (getCallState (CallSid e) (fst (step ctx (w, e) st))).
Proof.
  pose proof (step_own_paths ctx w e st) as H.
  destruct (step ctx (w, e) st). exact H.
Qed.

Ltac hframe_in H :=
  cbn [callStates callTranscripts callStartTimes amdResults processedActions] in H;
  destruct H as (? & ? & ? & ? & ? & ?).

(** A webhook touches no entry of another call, and all it does is
    done for its own call. *)
Lemma step_frame_paths ctx w e st other :
  other ≠ CallSid e →
  match step ctx (w, e) st with
  | (st', tr) =>
      callStates st' !! other = callStates st !! other
      ∧ callTranscripts st' !! other = callTranscripts st !! other
      ∧ callStartTimes st' !! other = callStartTimes st !! other
      ∧ amdResults st' !! other = amdResults st !! other
      ∧ processedActions st' !! other = processedActions st !! other
      ∧ Forall (λ x, effect_sid x = CallSid e) tr
  end.
Proof.
  intros Hne.
  handler_paths e st.
  all: cbn [CallSid] in Hne;
    cbn [callStates callTranscripts callStartTimes amdResults processedActions
         CallSid];
    rewrite ?app_nil_r; cbn [app].
  all: try hframe_in Hframe.
  all: repeat match goal with
              | H : ∀ c', c' ≠ _ → _ |- _ =>
                  destruct (H other Hne) as [? ?]; clear H
              end.
  all: repeat split;
    repeat match goal with
           | H : ?x = _ |- context [?x] => rewrite H
           end;
    rewrite ?lookup_insert_ne, ?lookup_delete_ne by congruence;
    try reflexivity; repeat constructor; assumption.
Qed.

Lemma step_frame ctx w e st other :
  other ≠ CallSid e →
  let st' := fst (step ctx (w, e) st) in
  callStates st' !! other = callStates st !! other
  ∧ callTranscripts st' !! other = callTranscripts st !! other
  ∧ callStartTimes st' !! other = callStartTimes st !! other
  ∧ amdResults st' !! other = amdResults st !! other
  ∧ processedActions st' !! other = processedActions st !! other
  ∧ Forall (λ x, effect_sid x = CallSid e) (snd (step ctx (w, e) st)).
Proof.
  intros Hne. pose proof (step_frame_paths ctx w e st other Hne) as H.
  destruct (step ctx (w, e) st). exact H.
Qed.

Lemma step_evolves ctx we st c :
  evolves c (getCallState c st) (snd (step ctx we st))
    (getCallState c (fst (step ctx we st))).
Proof.
  destruct we as [w e]. destruct (decide (c = CallSid e)) as [->|Hne].
  - apply step_own.
  - destruct (step_frame ctx w e st c Hne) as (Hs & _ & _ & _ & _ & Htr).
    unfold getCallState. rewrite Hs. apply evolves_foreign.
    eapply Forall_impl; [exact Htr|]. cbn. intros x ->. congruence.
Qed.

Lemma final_cons ctx we evs st :
  final ctx (we :: evs) st = final ctx evs (fst (step ctx we st)).
Proof. reflexivity. Qed.

(** Any replay moves any session legally and within its budget. *)
Lemma trace_evolves ctx evs st c :
  evolves c (getCallState c st) (trace ctx evs st)
    (getCallState c (final ctx evs st)).
Proof.
  revert st; induction evs as [|we evs IH]; intros st.
  - split; [reflexivity|]. intros _. cbn. lia.
  - rewrite final_cons. cbn [trace].
    eapply evolves_app; [apply step_evolves | apply IH].
Qed.

Lemma markings_le c tag tr : (markings c tag tr ≤ count (is_mark c) tr)%nat.
Proof.
  unfold markings, count. induction tr as [|e tr IH]; cbn; [lia|].
  destruct e as [?|? ?|c' tag'|? ?|? ?|?]; cbn; try exact IH.
  destruct (String.eqb c' c); cbn; [|exact IH].
  destruct (String.eqb tag' tag); cbn; lia.
Qed.

Lemma potI_le s : (potI s ≤ 1)%nat.
Proof. destruct s; cbn; lia. Qed.

Lemma potT_le s : (potT s ≤ 1)%nat.
Proof. destruct s; cbn; lia. Qed.

(** X26. Webhooks handled one after another.  While the session of a
    call is not deleted by a call-termination webhook, whatever
    webhooks are replayed and however often, each handler having come
    to its end before the next webhook arrives: the identification is
    invoked at most once, at most one of LeaveVoicemail and Passthrough
    is invoked, and at most once, every action tag is added at most
    once, and from a terminal state on no action is invoked at all.
    For webhooks that overlap this fails: a duplicate handled while
    the first handler waits passes the call through a second time. *)
Theorem at_most_once_per_session ctx evs st c :
  deleted c (trace ctx evs st) = false →
  (invocations c Identify (trace ctx evs st) ≤ 1)%nat
  ∧ (invocations c LeaveVoicemail (trace ctx evs st)
     + invocations c Passthrough (trace ctx evs st) ≤ 1)%nat
  ∧ (∀ tag, (markings c tag (trace ctx evs st) ≤ 1)%nat)
  ∧ (getCallState c st = PASSTHROUGH ∨ getCallState c st = VOICEMAIL_DELIVERED →
       ∀ a, invocations c a (trace ctx evs st) = 0%nat).
Proof.
  intros Hd. destruct (trace_evolves ctx evs st c) as [_ Hb].
  destruct (Hb Hd) as (HI & HT & HM). unfold terminal_invocations in *.
  pose proof (potI_le (getCallState c st)).
  pose proof (potT_le (getCallState c st)).
  split; [lia|]. split; [lia|]. split.
  - intros tag. pose proof (markings_le c tag (trace ctx evs st)). lia.
  - intros Hs a.
    assert (potI (getCallState c st) = 0 ∧ potT (getCallState c st) = 0)%nat
      as [HpI HpT] by (destruct Hs as [-> | ->]; split; reflexivity).
    destruct a; lia.
Qed.

(** The direct answer delivered twice passes the call through once. *)
Lemma at_most_once_per_session_witness :
  deleted "CA1" (trace defaults direct_answer_twice emptyStore) = false
  ∧ (invocations "CA1" Passthrough (trace defaults direct_answer_twice emptyStore) ≤ 1)%nat.
Proof.
  split; [reflexivity|].
  pose proof (at_most_once_per_session defaults direct_answer_twice emptyStore "CA1" eq_refl)
    as (_ & H & _).
  lia.
Defined.

(** A chunk that arrives after the call has completed finds no session
    and creates one: [playIOS26Response] is entered a second time for
    the same call id.  The call then reads as completed, so the second
    entry is reported ABORTED and sends no update. *)
Example late_chunk_identifies_again :
  invocations "CA1" Identify (trace defaults late_chunk_after_completion emptyStore)
  = 2%nat
  ∧ count is_update (trace defaults late_chunk_after_completion emptyStore)
    = 1%nat
  ∧ deleted "CA1" (trace defaults late_chunk_after_completion emptyStore) = true.
Proof. vm_compute. repeat split; reflexivity. Qed.

(** ** Forward-only transitions *)

Global Instance forward_trans : Transitive forward.
Proof. intros [] [] []; cbn; tauto. Qed.

Lemma legal_forward s s' :
  legal s s' = true → s ≠ UNKNOWN → s' ≠ UNKNOWN → forward s s'.
Proof. destruct s, s'; cbn; intros; try discriminate; try congruence; exact I. Qed.

Lemma walk_sorted s ws s' :
  walk s ws = Some s' → UNKNOWN ∉ s :: ws → Sorted forward (s :: ws).
Proof.
  revert s; induction ws as [|x ws IH]; intros s Hw Hu.
  - repeat constructor.
  - cbn in Hw. destruct (legal s x) eqn:Hl; [|discriminate].
    constructor.
    + apply IH; [exact Hw|]. intros Hin. apply Hu. right. exact Hin.
    + constructor. apply legal_forward; [exact Hl | |];
        intros ->; apply Hu; [left | right; left].
Qed.

Lemma walk_split s l1 l2 s' :
  walk s (l1 ++ l2) = Some s' →
  ∃ s1, walk s l1 = Some s1 ∧ walk s1 l2 = Some s'.
Proof.
  rewrite walk_app. destruct (walk s l1) as [s1|]; [|discriminate]. eauto.
Qed.

Lemma walk_last s ws s' : walk s ws = Some s' → last (s :: ws) = Some s'.
Proof.
  revert s; induction ws as [|x ws IH]; intros s Hw.
  - cbn in *. congruence.
  - cbn in Hw. destruct (legal s x); [|discriminate].
    rewrite last_cons_cons. apply IH. exact Hw.
Qed.

Lemma walk_cons_inv s x ws s' :
  walk s (x :: ws) = Some s' → legal s x = true ∧ walk x ws = Some s'.
Proof. cbn. destruct (legal s x); [auto | discriminate]. Qed.

(** Any stretch of the written states that contains no deletion is
    sorted, and a state written right after a deletion is INITIAL or
    another deletion. *)
Lemma walk_segment s ws s' pre seg post :
  walk s ws = Some s' →
  s :: ws = pre ++ seg ++ post →
  (UNKNOWN ∉ seg → StronglySorted forward seg)
  ∧ (∀ pre' x seg', pre = pre' ++ [UNKNOWN] → seg = x :: seg' →
       x = INITIAL ∨ x = UNKNOWN).
Proof.
  intros Hw Heq.
  assert (Hseg : ∀ x seg', seg = x :: seg' →
            ∃ s1, walk x seg' = Some s1
                  ∧ ∀ pre' y, pre = pre' ++ [y] → legal y x = true).
  { intros x seg' ->. destruct pre as [|p pre].
    - cbn in Heq. injection Heq as <- ->.
      apply walk_split in Hw as (s1 & Hw1 & _). exists s1. split; [exact Hw1|].
      intros [|? ?] y Hy; discriminate Hy.
    - cbn in Heq. injection Heq as <- ->.
      apply walk_split in Hw as (s1 & Hw1 & Hw2).
      apply walk_cons_inv in Hw2 as [Hl Hw2].
      apply walk_split in Hw2 as (s2 & Hw2 & _).
      exists s2. split; [exact Hw2|].
      intros pre' y Hy.
      apply walk_last in Hw1. rewrite Hy, last_snoc in Hw1. congruence. }
  split.
  - intros Hu. destruct seg as [|x seg']; [constructor|].
    destruct (Hseg x seg' eq_refl) as (s1 & Hw1 & _).
    apply Sorted_StronglySorted; [exact forward_trans|].
    eapply walk_sorted; eauto.
  - intros pre' x seg' Hp Hs.
    destruct (Hseg x seg' Hs) as (_ & _ & Hl).
    specialize (Hl pre' UNKNOWN Hp). destruct x; cbn in Hl; try discriminate; auto.
Qed.

(** X27. Webhooks handled one after another.  Take the states written
    for a call while webhooks are replayed, each handler having come to
    its end before the next webhook arrives, the state before the first
    webhook in front and deletions of the
    session showing as UNKNOWN. Every stretch of this sequence in which
    the session exists throughout is sorted along INITIAL →
    IOS26_MONITORING → PASSTHROUGH or VOICEMAIL_DELIVERED (or directly
    INITIAL → a terminal state): the state never moves backward, never
    re-enters INITIAL after leaving it and never changes from one
    terminal state to the other; a stretch that begins with the
    creation of the session begins with INITIAL; and the sequence ends
    in the state the store holds.  For webhooks that overlap this
    fails: a handler that waited for its passthrough sets PASSTHROUGH
    over the VOICEMAIL_DELIVERED another handler has written. *)
Theorem forward_only_transitions ctx evs st c pre seg post :
  getCallState c st :: observed c (trace ctx evs st) = pre ++ seg ++ post →
  UNKNOWN ∉ seg →
  StronglySorted forward seg
  ∧ (∀ pre' x seg', pre = pre' ++ [UNKNOWN] → seg = x :: seg' → x = INITIAL)
  ∧ last (getCallState c st :: observed c (trace ctx evs st))
    = Some (getCallState c (final ctx evs st)).
Proof.
  intros Heq Hu. destruct (trace_evolves ctx evs st c) as [Hw _].
  destruct (walk_segment _ _ _ pre seg post Hw Heq) as [Hs Hb].
  split; [exact (Hs Hu)|]. split.
  - intros pre' x seg' Hp Hx. destruct (Hb pre' x seg' Hp Hx) as [H|H]; [exact H|].
    exfalso. apply Hu. rewrite Hx, H. left.
  - apply walk_last. exact Hw.
Qed.

(** Preamble then voicemail: created, INITIAL, IOS26_MONITORING,
    VOICEMAIL_DELIVERED. *)
Lemma forward_only_transitions_witness :
  let tr := trace defaults preamble_then_voicemail emptyStore in
  (getCallState "CA1" emptyStore :: observed "CA1" tr =
     [UNKNOWN] ++ [INITIAL; IOS26_MONITORING; VOICEMAIL_DELIVERED] ++ [])
  ∧ (UNKNOWN ∉ [INITIAL; IOS26_MONITORING; VOICEMAIL_DELIVERED])
  ∧ StronglySorted forward [INITIAL; IOS26_MONITORING; VOICEMAIL_DELIVERED].
Proof.
  assert (Heq : getCallState "CA1" emptyStore
                :: observed "CA1" (trace defaults preamble_then_voicemail emptyStore)
                = [UNKNOWN] ++ [INITIAL; IOS26_MONITORING; VOICEMAIL_DELIVERED] ++ [])
    by (vm_compute; reflexivity).
  assert (Hu : UNKNOWN ∉ [INITIAL; IOS26_MONITORING; VOICEMAIL_DELIVERED]).
  { intros H. repeat (apply elem_of_cons in H as [H|H]; [discriminate H|]).
    inversion H. }
  split; [exact Heq|]. split; [exact Hu|].
  exact (proj1 (forward_only_transitions defaults preamble_then_voicemail
                  emptyStore "CA1" _ _ _ Heq Hu)).
Defined.

(** ** Lifecycle and malformed webhooks *)

Lemma is_str_falsy o v :
  truthy_opt o = false → Js.truthy v = true → is_str o v = false.
Proof.
  intros Ho Hv. unfold is_str. apply bool_decide_eq_false. intros ->.
  cbn in Ho. congruence.
Qed.

Ltac no_transcription_event H :=
  pose proof (is_str_falsy _ "transcription-content" H eq_refl);
  pose proof (is_str_falsy _ "transcription-started" H eq_refl);
  pose proof (is_str_falsy _ "transcription-stopped" H eq_refl).

Ltac no_status H :=
  pose proof (is_str_falsy _ "completed" H eq_refl);
  pose proof (is_str_falsy _ "failed" H eq_refl);
  pose proof (is_str_falsy _ "canceled" H eq_refl);
  pose proof (is_str_falsy _ "no-answer" H eq_refl);
  pose proof (is_str_falsy _ "initiated" H eq_refl);
  pose proof (is_str_falsy _ "ringing" H eq_refl);
  pose proof (is_str_falsy _ "in-progress" H eq_refl);
  pose proof (is_str_falsy _ "answered" H eq_refl).

(** C10. An initialization-class lifecycle webhook for a call whose
    session is INITIAL re-initializes it: the start time becomes the
    current time, so that no time has elapsed, and the transcript
    window is emptied, the state, the machine-detection result and the
    processed actions staying as they are; for a session in
    IOS26_MONITORING, PASSTHROUGH or VOICEMAIL_DELIVERED the webhook
    changes nothing. *)
Theorem lifecycle_reinitialization ctx w e st :
  initialization_event e →
  (callStates st !! CallSid e = Some INITIAL →
     step ctx (w, e) st =
       (mkStore (callStates st)
                (<[CallSid e := ""]> (callTranscripts st))
                (<[CallSid e := now w]> (callStartTimes st))
                (amdResults st) (processedActions st),
        [Initialize (CallSid e)])
     ∧ getCallElapsedTime w (CallSid e) (fst (step ctx (w, e) st)) = 0)
  ∧ (∀ s, callStates st !! CallSid e = Some s →
       s = IOS26_MONITORING ∨ s = PASSTHROUGH ∨ s = VOICEMAIL_DELIVERED →
       step ctx (w, e) st = (st, [])).
Proof.
  intros (Hamd & Htev & Hstatus).
  split.
  - intros Hc.
    enough (match step ctx (w, e) st with
            | (st', tr) =>
                (st', tr) =
                  (mkStore (callStates st)
                     (<[CallSid e := ""]> (callTranscripts st))
                     (<[CallSid e := now w]> (callStartTimes st))
                     (amdResults st) (processedActions st),
                   [Initialize (CallSid e)])
                ∧ getCallElapsedTime w (CallSid e) st' = 0
            end) as H by (destruct (step ctx (w, e) st); exact H).
    revert Hamd Htev Hstatus Hc.
    destruct st as [cs ts ss as_ ps]. destruct e as [c status amd tev data].
    cbn [CallSid CallStatus AnsweredBy TranscriptionEvent TranscriptionData
         callStates callTranscripts callStartTimes amdResults processedActions].
    intros Hamd Htev Hstatus Hc.
    no_transcription_event Htev.
    destruct Hstatus as [(v & -> & [-> | [-> | [-> | ->]]]) | [Hst Hsid]];
      [ | | | | no_status Hst].
    all: hexec; hnorm.
    all: repeat (first [split_opt | split_payload | split_if]; hnorm).
    all: rewrite (insert_id cs c INITIAL Hc), ?app_nil_r; cbn [app].
    all: (split; [reflexivity|]).
    all: unfold getCallElapsedTime;
      cbn [callStartTimes]; rewrite lookup_insert_eq;
      destruct (now w =? 0); lia.
  - intros s Hc Hs.
    enough (match step ctx (w, e) st with
            | (st', tr) => (st', tr) = (st, [])
            end) as H by (destruct (step ctx (w, e) st); exact H).
    revert Hamd Htev Hstatus Hc.
    destruct st as [cs ts ss as_ ps]. destruct e as [c status amd tev data].
    cbn [CallSid CallStatus AnsweredBy TranscriptionEvent TranscriptionData
         callStates callTranscripts callStartTimes amdResults processedActions].
    intros Hamd Htev Hstatus Hc.
    no_transcription_event Htev.
    destruct Hstatus as [(v & -> & [-> | [-> | [-> | ->]]]) | [Hst Hsid]];
      [ | | | | no_status Hst].
    all: destruct Hs as [-> | [-> | ->]].
    all: hexec; hnorm.
    all: repeat (first [split_opt | split_payload | split_if]; hnorm).
    all: reflexivity.
Qed.

(** C7, as the code has it. A transcript webhook whose payload cannot
    be parsed changes nothing and does nothing when the call already
    has a session; when it has none, the session is created first
    (INITIAL, started now, empty window) and only then is the payload
    found unparseable, the machine-detection result and the processed
    actions staying as they are. *)
Theorem malformed_transcript_effect ctx w e st :
  malformed_transcript e →
  (is_Some (callStates st !! CallSid e) → step ctx (w, e) st = (st, []))
  ∧ (callStates st !! CallSid e = None →
       step ctx (w, e) st =
         (mkStore (<[CallSid e := INITIAL]> (callStates st))
                  (<[CallSid e := ""]> (callTranscripts st))
                  (<[CallSid e := now w]> (callStartTimes st))
                  (amdResults st) (processedActions st),
          [Initialize (CallSid e)])).
Proof.
  intros (Hamd & Htev & Hdata).
  destruct st as [cs ts ss as_ ps]. destruct e as [c status amd tev data].
  cbn [CallSid CallStatus AnsweredBy TranscriptionEvent TranscriptionData
       callStates callTranscripts callStartTimes amdResults processedActions] in *.
  subst tev data.
  split.
  - intros [s Hc]. hexec; hnorm.
    repeat (first [split_opt | split_payload | split_if]; hnorm); reflexivity.
  - intros Hc. hexec; hnorm.
    repeat (first [split_opt | split_payload | split_if]; hnorm); reflexivity.
Qed.

(** An unparseable payload for a call that has a session. *)
Lemma malformed_transcript_effect_witness :
  malformed_transcript (malformedTranscriptEvent "CA1")
  ∧ step defaults (quiet 1000, malformedTranscriptEvent "CA1")
      (final defaults bare_greeting emptyStore)
    = (final defaults bare_greeting emptyStore, []).
Proof.
  assert (H : malformed_transcript (malformedTranscriptEvent "CA1"))
    by (repeat split).
  split; [exact H|].
  apply (proj1 (malformed_transcript_effect defaults (quiet 1000)
                  (malformedTranscriptEvent "CA1")
                  (final defaults bare_greeting emptyStore) H)).
  vm_compute. eauto.
Defined.

(** C7, refuted as stated: an unparseable payload that is the first
    webhook of a call leaves a session behind. *)
Lemma malformed_transcript_creates_session :
  ¬ (∀ ctx w e st,
       malformed_transcript e → fst (step ctx (w, e) st) = st).
Proof.
  intros H.
  specialize (H defaults (quiet 1000) (malformedTranscriptEvent "CA1") emptyStore).
  assert (Hm : malformed_transcript (malformedTranscriptEvent "CA1"))
    by (repeat split).
  specialize (H Hm).
  apply (f_equal (getCallState "CA1")) in H. vm_compute in H. discriminate H.
Qed.

(** A ringing webhook eleven seconds after the session was created,
    the session still INITIAL: no time has elapsed afterwards. *)
Lemma lifecycle_reinitialization_witness :
  initialization_event (lifecycleEvent "CA1" "ringing")
  ∧ callStates (final defaults bare_greeting emptyStore) !! "CA1" = Some INITIAL
  ∧ getCallElapsedTime (quiet 12000) "CA1"
      (fst (step defaults (quiet 12000, lifecycleEvent "CA1" "ringing")
              (final defaults bare_greeting emptyStore))) = 0.
Proof.
  assert (He : initialization_event (lifecycleEvent "CA1" "ringing")).
  { repeat split. left. exists "ringing". split; [reflexivity|].
    right; left; reflexivity. }
  assert (Hc : callStates (final defaults bare_greeting emptyStore) !! "CA1"
               = Some INITIAL) by (vm_compute; reflexivity).
  split; [exact He|]. split; [exact Hc|].
  exact (proj2 (proj1 (lifecycle_reinitialization defaults (quiet 12000)
                         (lifecycleEvent "CA1" "ringing")
                         (final defaults bare_greeting emptyStore) He) Hc)).
Defined.


(** ** The sliding window *)

Lemma append_cons x (a b : string) : String x a +:+ b = String x (a +:+ b).
Proof. reflexivity. Qed.

Lemma append_empty (b : string) : "" +:+ b = b.
Proof. reflexivity. Qed.

Lemma chars_app (a b : string) :
  list_ascii_of_string (a +:+ b) = list_ascii_of_string a ++ list_ascii_of_string b.
Proof.
  induction a as [|x a IH]; [reflexivity|].
  rewrite append_cons. cbn. rewrite IH. reflexivity.
Qed.

Lemma append_assoc (a b c : string) : (a +:+ b) +:+ c = a +:+ (b +:+ c).
Proof.
  induction a as [|x a IH]; [reflexivity|].
  rewrite !append_cons, IH. reflexivity.
Qed.

Lemma chars_length (s : string) : String.length s = length (list_ascii_of_string s).
Proof. induction s as [|x s IH]; cbn; [reflexivity | rewrite IH; reflexivity]. Qed.

Lemma chars_inj (a b : string) :
  list_ascii_of_string a = list_ascii_of_string b → a = b.
Proof.
  intros H. rewrite <- (string_of_list_ascii_of_string a),
    <- (string_of_list_ascii_of_string b), H. reflexivity.
Qed.

Lemma slice_last_chars n s :
  list_ascii_of_string (Js.slice_last n s)
  = drop (length (list_ascii_of_string s) - n) (list_ascii_of_string s).
Proof. unfold Js.slice_last. apply list_ascii_of_string_of_list_ascii. Qed.

Lemma slice_last_short n s : (String.length s ≤ n)%nat → Js.slice_last n s = s.
Proof.
  intros H. apply chars_inj. rewrite slice_last_chars.
  rewrite chars_length in H.
  replace (length (list_ascii_of_string s) - n)%nat with 0%nat by lia.
  reflexivity.
Qed.

Lemma slice_last_length n s : (String.length (Js.slice_last n s) ≤ n)%nat.
Proof. rewrite chars_length, slice_last_chars, length_drop. lia. Qed.

Lemma slice_last_suffix n s : ∃ dropped, s = dropped +:+ Js.slice_last n s.
Proof.
  exists (string_of_list_ascii
            (take (length (list_ascii_of_string s) - n) (list_ascii_of_string s))).
  apply chars_inj.
  rewrite chars_app, list_ascii_of_string_of_list_ascii, slice_last_chars.
  symmetry. apply take_drop.
Qed.

Lemma slice_last_app n a b :
  Js.slice_last n (Js.slice_last n a +:+ b) = Js.slice_last n (a +:+ b).
Proof.
  apply chars_inj. rewrite !slice_last_chars, !chars_app, slice_last_chars.
  set (la := list_ascii_of_string a). set (lb := list_ascii_of_string b).
  rewrite !length_app, length_drop.
  destruct (decide (length la ≤ n)%nat) as [Hle|Hgt].
  - replace (length la - n)%nat with 0%nat by lia.
    rewrite Nat.sub_0_r. reflexivity.
  - rewrite !drop_app, length_drop, drop_drop. f_equal; f_equal; lia.
Qed.

Lemma accumulate_slice stored t :
  accumulate stored t
  = Js.slice_last 300 (default "" stored +:+ " " +:+ Js.trim t).
Proof.
  unfold accumulate.
  assert (Hs : match stored with
               | Some s => if Js.truthy s then s else ""
               | None => ""
               end = default "" stored).
  { destruct stored as [[|]|]; reflexivity. }
  rewrite Hs.
  destruct (300 <? String.length _)%nat eqn:Hlen; [reflexivity|].
  apply Nat.ltb_ge in Hlen. symmetry. apply slice_last_short. exact Hlen.
Qed.

Lemma concat_snoc sep x xs t :
  String.concat sep (x :: xs ++ [t]) = String.concat sep (x :: xs) +:+ sep +:+ t.
Proof.
  revert x; induction xs as [|y xs IH]; intros x.
  - reflexivity.
  - change (String.concat sep (x :: (y :: xs) ++ [t]))
      with (x +:+ sep +:+ String.concat sep (y :: xs ++ [t])).
    rewrite IH.
    change (String.concat sep (x :: y :: xs))
      with (x +:+ sep +:+ String.concat sep (y :: xs)).
    rewrite !append_assoc. reflexivity.
Qed.

Lemma space_joined_snoc texts t :
  space_joined (texts ++ [t]) = space_joined texts +:+ " " +:+ Js.trim t.
Proof. unfold space_joined. rewrite map_app. apply concat_snoc. Qed.

(** Sliding chunk by chunk is cutting the joined text once. *)
Lemma slide_joined texts :
  foldl slide "" texts = Js.slice_last 300 (space_joined (accepted texts)).
Proof.
  induction texts as [|t texts IH] using rev_ind; [reflexivity|].
  rewrite foldl_snoc, IH. unfold slide, accepted.
  rewrite List.filter_app. cbn [List.filter].
  destruct (Js.truthy t && Js.truthy (Js.trim t)).
  - rewrite space_joined_snoc, accumulate_slice. cbn [default from_option id].
    apply slice_last_app.
  - rewrite app_nil_r. reflexivity.
Qed.

(** ** The transcript window across webhooks *)

Lemma accumulate_default stored t :
  accumulate stored t = accumulate (Some (default "" stored)) t.
Proof. rewrite !accumulate_slice. reflexivity. Qed.

(** One transcript webhook: the session exists afterwards, and the
    window is the stored one (the empty one for a session created just
    now) with the chunk appended, if the chunk is not blank. *)
Lemma step_transcript_paths ctx w c t st :
  match step ctx (w, transcriptEvent c t) st with
  | (st', _) =>
      is_Some (callStates st' !! c)
      ∧ callTranscripts st' !! c =
          let stored :=
            if bool_decide (is_Some (callStates st !! c))
            then callTranscripts st !! c else Some "" in
          if Js.truthy t && Js.truthy (Js.trim t)
          then Some (accumulate stored t) else stored
  end.
Proof.
  destruct st as [cs ts ss as_ ps]. unfold transcriptEvent.
  hexec; hnorm.
  repeat (first [split_call | split_opt | split_payload | split_if]; hnorm).
  all: try (cbn [negb] in *; discriminate).
  all: try hframe_in Hframe.
  all: repeat match goal with
              | H : bool_decide _ = true |- _ => apply bool_decide_eq_true in H
              end.
  all: split;
    [ first [ assumption | eauto; fail
            | match goal with
              | H : is_Some _ → is_Some ?x |- is_Some ?x =>
                  apply H; rewrite ?lookup_insert_eq; eauto
              end ]
    | first [ reflexivity
            | match goal with
              | H : callTranscripts ?s = _ |- callTranscripts ?s !! _ = _ =>
                  rewrite H, !lookup_insert_eq; reflexivity
              end ] ].
Qed.

Lemma step_transcript ctx w c t st win :
  default "" (callTranscripts st !! c) = win →
  is_Some (callStates st !! c) ∨ win = "" →
  let st' := fst (step ctx (w, transcriptEvent c t) st) in
  default "" (callTranscripts st' !! c) = slide win t
  ∧ is_Some (callStates st' !! c).
Proof.
  intros Hwin Hknown st'; subst st'.
  pose proof (step_transcript_paths ctx w c t st) as H.
  destruct (step ctx (w, transcriptEvent c t) st) as [st' tr].
  destruct H as [Hs Ht]. cbn [fst]. split; [|exact Hs].
  rewrite Ht. unfold slide.
  assert (Hstored :
    default "" (if bool_decide (is_Some (callStates st !! c))
                then callTranscripts st !! c else Some "") = win).
  { case_bool_decide as Hk; [exact Hwin|].
    destruct Hknown as [Hk'|Hw]; [contradiction | rewrite Hw; reflexivity]. }
  cbn zeta. destruct (Js.truthy t && Js.truthy (Js.trim t)).
  - cbn [default from_option id]. rewrite accumulate_default, Hstored. reflexivity.
  - exact Hstored.
Qed.

Lemma final_transcripts ctx c chunks st win :
  default "" (callTranscripts st !! c) = win →
  is_Some (callStates st !! c) ∨ win = "" →
  default "" (callTranscripts (final ctx (transcriptEvents c chunks) st) !! c)
  = foldl slide win (map snd chunks).
Proof.
  revert st win; induction chunks as [|[w t] chunks IH]; intros st win Hwin Hk.
  - exact Hwin.
  - cbn [transcriptEvents map]. rewrite final_cons. cbn [foldl snd fst].
    destruct (step_transcript ctx w c t st win Hwin Hk) as [Hw' Hs'].
    apply IH; [exact Hw' | left; exact Hs'].
Qed.

(** The window of a call after a webhook of that call is the window
    before, or no window, or the empty window, or what [accumulate]
    made. *)
Lemma step_window_paths ctx w e st :
  match step ctx (w, e) st with
  | (st', _) =>
      callTranscripts st' !! CallSid e = callTranscripts st !! CallSid e
      ∨ callTranscripts st' !! CallSid e = None
      ∨ callTranscripts st' !! CallSid e = Some ""
      ∨ ∃ stored t, callTranscripts st' !! CallSid e = Some (accumulate stored t)
  end.
Proof.
  handler_paths e st.
  all: cbn [CallSid callTranscripts]; try hframe_in Hframe.
  all: repeat match goal with
              | H : callTranscripts ?s = _ |- context [callTranscripts ?s] =>
                  rewrite H
              end;
    rewrite ?lookup_insert_eq, ?lookup_delete_eq.
  all: first [ left; reflexivity
             | right; left; reflexivity
             | right; right; left; reflexivity
             | right; right; right; eexists _, _; reflexivity ].
Qed.


Lemma accumulate_capped stored t : (String.length (accumulate stored t) ≤ 300)%nat.
Proof. rewrite accumulate_slice. apply slice_last_length. Qed.

Lemma step_capped ctx we st c : capped c st → capped c (fst (step ctx we st)).
Proof.
  destruct we as [w e]. unfold capped. intros Hcap.
  destruct (decide (c = CallSid e)) as [->|Hne].
  - pose proof (step_window_paths ctx w e st) as H.
    destruct (step ctx (w, e) st) as [st' tr]. cbn [fst].
    destruct H as [-> | [-> | [-> | (stored & t & ->)]]]; cbn;
      [exact Hcap | lia | lia | apply accumulate_capped].
  - destruct (step_frame ctx w e st c Hne) as (_ & -> & _). exact Hcap.
Qed.

Lemma final_capped ctx evs st c : capped c st → capped c (final ctx evs st).
Proof.
  revert st; induction evs as [|we evs IH]; intros st Hcap; [exact Hcap|].
  rewrite final_cons. apply IH, step_capped, Hcap.
Qed.

(** C9. Whatever webhooks are replayed, a window of at most 300
    characters stays one.  And starting from an empty window, after any
    sequence of transcript webhooks the window is the last 300
    characters (the whole, when shorter) of the empty window and the
    trimmed non-empty chunks joined by single spaces: what is dropped
    is dropped from the front. *)
Theorem transcript_window_sliding ctx c :
  (∀ evs st, capped c st → capped c (final ctx evs st))
  ∧ (∀ chunks st,
       default "" (callTranscripts st !! c) = "" →
       let joined := space_joined (accepted (map snd chunks)) in
       let win :=
         default ""
           (callTranscripts (final ctx (transcriptEvents c chunks) st) !! c) in
       (String.length win ≤ 300)%nat
       ∧ win = Js.slice_last 300 joined
       ∧ ∃ dropped, joined = dropped +:+ win).
Proof.
  split; [intros evs st; apply final_capped|].
  intros chunks st Hfresh joined win.
  assert (Hwin : win = Js.slice_last 300 joined).
  { subst win joined. rewrite <- slide_joined.
    apply final_transcripts; [exact Hfresh | right; reflexivity]. }
  rewrite Hwin. split; [apply slice_last_length|]. split; [reflexivity|].
  apply slice_last_suffix.
Qed.

(** Two chunks and a blank one. *)
Lemma transcript_window_sliding_witness :
  default "" (callTranscripts emptyStore !! "CA1") = ""
  ∧ default ""
      (callTranscripts
         (final defaults (transcriptEvents "CA1" three_chunks) emptyStore) !! "CA1")
    = " hello there who is this?".
Proof.
  split; [reflexivity|].
  rewrite (proj1 (proj2 (proj2 (transcript_window_sliding defaults "CA1")
                                  three_chunks emptyStore eq_refl))).
  vm_compute. reflexivity.
Defined.

(** * Further properties *)

(** ** Escaping the voicemail message *)

Lemma replace_global_app c r a b :
  replace_global c r (a +:+ b) = replace_global c r a +:+ replace_global c r b.
Proof.
  induction a as [|x a IH]; [reflexivity|].
  rewrite append_cons. cbn [replace_global]. rewrite IH.
  destruct (Ascii.eqb x c); [rewrite append_assoc|]; reflexivity.
Qed.

Lemma escapedMessage_app a b :
  escapedMessage (a +:+ b) = escapedMessage a +:+ escapedMessage b.
Proof. unfold escapedMessage. rewrite !replace_global_app. reflexivity. Qed.

Lemma escapedMessage_char x : escapedMessage (String x "") = entity x.
Proof.
  unfold escapedMessage, entity.
  cbn [replace_global].
  destruct (Ascii.eqb x "&") eqn:E1; [reflexivity|].
  cbn [replace_global]. destruct (Ascii.eqb x "<") eqn:E2; [reflexivity|].
  cbn [replace_global]. destruct (Ascii.eqb x ">") eqn:E3; [reflexivity|].
  cbn [replace_global]. destruct (Ascii.eqb x double_quote) eqn:E4; [reflexivity|].
  cbn [replace_global]. destruct (Ascii.eqb x "'") eqn:E5; reflexivity.
Qed.

Lemma escapedMessage_charwise m : escapedMessage m = escape_each m.
Proof.
  induction m as [|x m IH]; [reflexivity|].
  change (String x m) with (String x "" +:+ m).
  rewrite escapedMessage_app, escapedMessage_char, IH. reflexivity.
Qed.

(** X1. The five replacements, made one after the other with the
    ampersand first, amount to replacing every character of the message
    by its own entity at once: no ampersand of an entity is escaped a
    second time, and escaping a text in pieces or as a whole gives the
    same. *)
Theorem escapes_each_character a b :
  escapedMessage a = escape_each a
  ∧ escapedMessage (a +:+ b) = escapedMessage a +:+ escapedMessage b.
Proof. split; [apply escapedMessage_charwise | apply escapedMessage_app]. Qed.

Lemma entity_no_markup x :
  forallb (λ y, negb (markup y)) (list_ascii_of_string (entity x)) = true.
Proof.
  unfold entity.
  destruct (Ascii.eqb x "&") eqn:E1; [reflexivity|].
  destruct (Ascii.eqb x "<") eqn:E2; [reflexivity|].
  destruct (Ascii.eqb x ">") eqn:E3; [reflexivity|].
  destruct (Ascii.eqb x double_quote) eqn:E4; [reflexivity|].
  destruct (Ascii.eqb x "'") eqn:E5; [reflexivity|].
  cbn. unfold markup. rewrite E2, E3, E4, E5. reflexivity.
Qed.

(** X2. Whatever the voicemail message, its escaped form holds no
    angle bracket and no quote: the message cannot open or close an
    element or an attribute of the document it is put in. *)
Theorem escapedMessage_no_markup m :
  forallb (λ y, negb (markup y)) (list_ascii_of_string (escapedMessage m)) = true.
Proof.
  rewrite escapedMessage_charwise.
  induction m as [|x m IH]; [reflexivity|].
  cbn [escape_each]. rewrite chars_app, forallb_app, entity_no_markup, IH.
  reflexivity.
Qed.

Lemma entity_inj x y a b :
  entity x +:+ a = entity y +:+ b → x = y ∧ a = b.
Proof.
  unfold entity.
  destruct (Ascii.eqb_spec x "&") as [->|N1];
  [|destruct (Ascii.eqb_spec x "<") as [->|N2];
  [|destruct (Ascii.eqb_spec x ">") as [->|N3];
  [|destruct (Ascii.eqb_spec x double_quote) as [->|N4];
  [|destruct (Ascii.eqb_spec x "'") as [->|N5]]]]];
  (destruct (Ascii.eqb_spec y "&") as [->|M1];
  [|destruct (Ascii.eqb_spec y "<") as [->|M2];
  [|destruct (Ascii.eqb_spec y ">") as [->|M3];
  [|destruct (Ascii.eqb_spec y double_quote) as [->|M4];
  [|destruct (Ascii.eqb_spec y "'") as [->|M5]]]]]);
  rewrite ?append_cons, ?append_empty; intros H;
  try (injection H as H; subst; split; congruence);
  try (exfalso; congruence).
Qed.

(** X3. Escaping loses nothing: two messages with the same escaped
    form are the same message. *)
Theorem escapedMessage_injective a b :
  escapedMessage a = escapedMessage b → a = b.
Proof.
  rewrite !escapedMessage_charwise. revert b.
  induction a as [|x a IH]; intros [|y b] H.
  - reflexivity.
  - exfalso. cbn [escape_each] in H. unfold entity in H.
    repeat (destruct (Ascii.eqb _ _) in H; [discriminate H|]). discriminate H.
  - exfalso. cbn [escape_each] in H. unfold entity in H.
    repeat (destruct (Ascii.eqb _ _) in H; [discriminate H|]). discriminate H.
  - cbn [escape_each] in H. apply entity_inj in H as [-> H].
    f_equal. apply IH, H.
Qed.

Lemma escapedMessage_injective_witness :
  escapedMessage "Tom & Jerry <live>" = "Tom &amp; Jerry &lt;live&gt;"
  ∧ "Tom & Jerry <live>" = "Tom & Jerry <live>".
Proof.
  split; [reflexivity|].
  apply (escapedMessage_injective "Tom & Jerry <live>" "Tom & Jerry <live>").
  reflexivity.
Defined.

(** ** The classifier on larger and on differently cased texts *)

Lemma lower_ascii_idem x : Js.lower_ascii (Js.lower_ascii x) = Js.lower_ascii x.
Proof. destruct x as [[] [] [] [] [] [] [] []]; reflexivity. Qed.

Lemma toLowerCase_idem s : Js.toLowerCase (Js.toLowerCase s) = Js.toLowerCase s.
Proof.
  induction s as [|x s IH]; [reflexivity|].
  cbn [Js.toLowerCase]. rewrite lower_ascii_idem, IH. reflexivity.
Qed.

Lemma toLowerCase_app a b :
  Js.toLowerCase (a +:+ b) = Js.toLowerCase a +:+ Js.toLowerCase b.
Proof.
  induction a as [|x a IH]; [reflexivity|].
  rewrite append_cons. cbn [Js.toLowerCase]. rewrite IH. reflexivity.
Qed.

Lemma truthy_toLowerCase s : Js.truthy (Js.toLowerCase s) = Js.truthy s.
Proof. destruct s; reflexivity. Qed.

Lemma question_mark_lower x :
  Ascii.eqb "?" (Js.lower_ascii x) = Ascii.eqb "?" x.
Proof. destruct x as [[] [] [] [] [] [] [] []]; reflexivity. Qed.

Lemma includes_question_mark s :
  Js.includes (Js.toLowerCase s) "?" = Js.includes s "?".
Proof.
  induction s as [|x s IH]; [reflexivity|].
  cbn [Js.toLowerCase Js.includes Js.startsWith].
  rewrite question_mark_lower, IH. reflexivity.
Qed.

Lemma startsWith_app p s b :
  Js.startsWith p s = true → Js.startsWith p (s +:+ b) = true.
Proof.
  revert s. induction p as [|x p IH]; intros [|y s] H; try reflexivity;
    try discriminate H.
  rewrite append_cons. cbn [Js.startsWith] in *.
  destruct (Ascii.eqb x y); [apply IH, H | discriminate H].
Qed.

Lemma includes_app_r s p b :
  Js.includes s p = true → Js.includes (s +:+ b) p = true.
Proof.
  induction s as [|x s IH]; intros H.
  - cbn [Js.includes] in H. rewrite orb_false_r in H.
    destruct p; [|discriminate H]. destruct b; reflexivity.
  - rewrite append_cons. cbn [Js.includes] in *.
    apply orb_true_iff in H as [H|H]; apply orb_true_iff.
    + left. apply (startsWith_app _ (String x s)), H.
    + right. apply IH, H.
Qed.

Lemma includes_app_l a s p :
  Js.includes s p = true → Js.includes (a +:+ s) p = true.
Proof.
  intros H. induction a as [|x a IH]; [exact H|].
  rewrite append_cons. cbn [Js.includes]. rewrite IH. apply orb_true_r.
Qed.

Lemma some_includes_app patterns a s b :
  Js.some_includes patterns s = true →
  Js.some_includes patterns (a +:+ s +:+ b) = true.
Proof.
  unfold Js.some_includes. rewrite !existsb_exists.
  intros (p & Hin & Hp). exists p. split; [exact Hin|].
  apply includes_app_l, includes_app_r, Hp.
Qed.

Lemma truthy_app_mid a s b :
  Js.truthy s = true → Js.truthy (a +:+ s +:+ b) = true.
Proof. destruct a; [destruct s; [discriminate|]|]; reflexivity. Qed.

Lemma negb_truthy_true s : negb (Js.truthy s) = false → Js.truthy s = true.
Proof. destruct (Js.truthy s); [reflexivity | discriminate]. Qed.

(** X4. A preamble or a voicemail greeting found in a text is found in
    every text that contains it: what is said before and after never
    hides the phrase. *)
Theorem detection_survives_context a t b :
  (detectIOS26Patterns t = true → detectIOS26Patterns (a +:+ t +:+ b) = true)
  ∧ (detectVoicemailPatterns t = true →
       detectVoicemailPatterns (a +:+ t +:+ b) = true).
Proof.
  unfold detectIOS26Patterns, detectVoicemailPatterns.
  split.
  all: destruct (negb (Js.truthy t)) eqn:Ht; [discriminate|].
  all: apply negb_truthy_true in Ht.
  all: rewrite (truthy_app_mid a t b Ht); cbn [negb].
  all: rewrite !toLowerCase_app; apply some_includes_app.
Qed.

Lemma detection_survives_context_witness :
  detectIOS26Patterns "State your name" = true
  ∧ detectIOS26Patterns ("Hi. " +:+ "State your name" +:+ ", please.") = true.
Proof.
  assert (H : detectIOS26Patterns "State your name" = true) by reflexivity.
  split; [exact H|].
  exact (proj1 (detection_survives_context "Hi. " "State your name" ", please.") H).
Defined.

(** Human speech, in contrast, is lost in context. *)
Example human_lost_in_context :
  detectHumanSpeech "who is this" = true
  ∧ detectHumanSpeech ("thanks, " +:+ "who is this") = false.
Proof. split; reflexivity. Qed.

(** X5. The four detectors do not tell upper case from lower case: two
    texts with the same lower-case form are classified alike. *)
Theorem classification_ignores_case a b :
  Js.toLowerCase a = Js.toLowerCase b →
  detectIOS26Patterns a = detectIOS26Patterns b
  ∧ detectIntermediatePrompts a = detectIntermediatePrompts b
  ∧ detectVoicemailPatterns a = detectVoicemailPatterns b
  ∧ detectHumanSpeech a = detectHumanSpeech b.
Proof.
  intros H.
  assert (Ht : Js.truthy a = Js.truthy b)
    by (rewrite <- (truthy_toLowerCase a), H; apply truthy_toLowerCase).
  assert (Hq : Js.includes a "?" = Js.includes b "?")
    by (rewrite <- (includes_question_mark a), H; apply includes_question_mark).
  unfold detectHumanSpeech, detectIOS26Patterns, detectIntermediatePrompts,
    detectVoicemailPatterns.
  rewrite Ht, H, Hq. repeat split.
Qed.

Lemma classification_ignores_case_witness :
  Js.toLowerCase "WHO Is This" = Js.toLowerCase "who is this"
  ∧ detectHumanSpeech "WHO Is This" = detectHumanSpeech "who is this".
Proof.
  assert (H : Js.toLowerCase "WHO Is This" = Js.toLowerCase "who is this")
    by reflexivity.
  split; [exact H|].
  apply (classification_ignores_case "WHO Is This" "who is this" H).
Defined.

(** ** The identification, from its caller's side *)

(** X6. What [playIOS26Response] resolves to: SUCCESS exactly when the
    call needs no abort and the update goes through; ABORTED exactly
    when the call must not be touched or the update fails with a benign
    error.  It sends one update unless it aborts before, none then; and
    a failed fetch does not stop the update. *)
Theorem identification_outcome w c m :
  match playIOS26Response w c m with
  | (r, tr) =>
      count is_update tr = (if must_abort w then 0 else 1)%nat
      ∧ (r = SUCCESS ↔ must_abort w = false ∧ call_update w = UpdateOk)
      ∧ (r = ABORTED ↔
           must_abort w = true
           ∨ ∃ code message,
               call_update w = UpdateFailed code message
               ∧ benign_update_error code message = true)
      ∧ (call_fetch w = FetchFailed → count is_update tr = 1%nat)
  end.
Proof.
  unfold playIOS26Response, must_abort.
  destruct (call_fetch w) as [|status [u|]];
    try destruct (terminal_status status);
    try destruct (fetch_now w - u <? 2000);
    destruct (call_update w) as [|code message] eqn:Hu;
    try destruct (benign_update_error code message) eqn:Hb;
    cbn [orb].
  all: repeat split; try reflexivity; try discriminate; try tauto; try done.
  all: try (intros [? ?]; discriminate).
  all: try (intros _; left; reflexivity).
  all: try (intros _; right; eauto; fail).
  all: try (intros [?|(? & ? & ? & ?)]; congruence).
Qed.

Lemma identification_outcome_witness :
  call_fetch (quiet 0) = FetchFailed
  ∧ count is_update (snd (playIOS26Response (quiet 0) "CA1" "hi")) = 1%nat.
Proof.
  split; [reflexivity|].
  pose proof (identification_outcome (quiet 0) "CA1" "hi") as H.
  destruct (playIOS26Response (quiet 0) "CA1" "hi") as [r tr].
  destruct H as (_ & _ & _ & H). apply H. reflexivity.
Defined.

(** ** The accessors *)

(** X7. Marking and asking: a marked tag is found; the tags of other
    calls and the other tags of the same call are found as before; and
    marking twice is marking once. *)
Theorem mark_then_has c tag st :
  let st' := after (markActionProcessed c tag) st in
  hasProcessedAction c tag st' = true
  ∧ (∀ c' tag', (c', tag') ≠ (c, tag) →
       hasProcessedAction c' tag' st' = hasProcessedAction c' tag' st)
  ∧ after (markActionProcessed c tag) st' = st'.
Proof.
  unfold after, markActionProcessed, hasProcessedAction, bind, modify, emit.
  cbn [fst snd processedActions]. split; [|split].
  - rewrite lookup_insert_eq. cbn. apply bool_decide_eq_true.
    apply elem_of_union_l, elem_of_singleton. reflexivity.
  - intros c' tag' Hne. destruct (decide (c' = c)) as [->|Hc].
    + rewrite lookup_insert_eq. cbn. apply bool_decide_ext.
      assert (Htag : tag' ≠ tag) by congruence.
      rewrite elem_of_union, elem_of_singleton. tauto.
    + rewrite lookup_insert_ne by done. reflexivity.
  - cbn [callStates callTranscripts callStartTimes amdResults].
    f_equal. rewrite lookup_insert_eq. cbn.
    rewrite insert_insert_eq. f_equal.
    rewrite (assoc_L (∪)), (idemp_L (∪)). reflexivity.
Qed.

Lemma mark_then_has_witness :
  ("CA1", "voicemail_direct") ≠ ("CA1", "human_passthrough")
  ∧ hasProcessedAction "CA1" "voicemail_direct"
      (after (markActionProcessed "CA1" "human_passthrough") emptyStore)
    = hasProcessedAction "CA1" "voicemail_direct" emptyStore.
Proof.
  assert (H : ("CA1", "voicemail_direct") ≠ ("CA1", "human_passthrough"))
    by discriminate.
  split; [exact H|].
  exact (proj1 (proj2 (mark_then_has "CA1" "human_passthrough" emptyStore))
           "CA1" "voicemail_direct" H).
Defined.

(** X8. A session created for a call that had no entry and deleted
    again leaves the store exactly as it was. *)
Theorem initialize_then_cleanup w c st :
  absent c st →
  after (cleanupCallState c) (after (initializeCallState w c) st) = st.
Proof.
  intros (H1 & H2 & H3 & H4 & H5). destruct st as [cs ts ss as_ ps].
  unfold after, cleanupCallState, initializeCallState, bind, modify, emit.
  cbn [fst snd callStates callTranscripts callStartTimes amdResults
       processedActions] in *.
  rewrite !delete_insert_eq, !delete_id by assumption. reflexivity.
Qed.

Lemma initialize_then_cleanup_witness :
  absent "CA1" emptyStore
  ∧ after (cleanupCallState "CA1")
      (after (initializeCallState (quiet 1000) "CA1") emptyStore) = emptyStore.
Proof.
  assert (H : absent "CA1" emptyStore) by (repeat split).
  split; [exact H|].
  exact (initialize_then_cleanup (quiet 1000) "CA1" emptyStore H).
Defined.

(** X9. Right after its creation a session is INITIAL and no time has
    elapsed; later the elapsed time is the difference of the two clock
    readings, unless the session was created at clock reading 0, which
    the code takes for a missing start time: such a session never
    ages. *)
Theorem elapsed_since_initialization w w' c st :
  let st' := after (initializeCallState w c) st in
  getCallState c st' = INITIAL
  ∧ getCallElapsedTime w c st' = 0
  ∧ (now w ≠ 0 → getCallElapsedTime w' c st' = now w' - now w)
  ∧ (now w = 0 → getCallElapsedTime w' c st' = 0).
Proof.
  unfold after, initializeCallState, getCallState, getCallElapsedTime, bind,
    modify, emit.
  cbn [fst snd callStates callStartTimes]. rewrite !lookup_insert_eq. cbn.
  repeat split.
  - destruct (now w =? 0); lia.
  - intros H. destruct (Z.eqb_spec (now w) 0); [contradiction | reflexivity].
  - intros ->. reflexivity.
Qed.

Lemma elapsed_since_initialization_witness :
  now (quiet 1000) ≠ 0
  ∧ getCallElapsedTime (quiet 9000) "CA1"
      (after (initializeCallState (quiet 1000) "CA1") emptyStore) = 8000.
Proof.
  assert (H : now (quiet 1000) ≠ 0) by discriminate.
  split; [exact H|].
  exact (proj1 (proj2 (proj2
           (elapsed_since_initialization (quiet 1000) (quiet 9000) "CA1"
              emptyStore))) H).
Defined.

(** ** The resolver, by state, time and window *)

Ltac times :=
  repeat match goal with
         | H : _ && _ = true |- _ => apply andb_true_iff in H as [? ?]
         end;
  repeat match goal with
         | H : (_ <? _) = true |- _ => apply Z.ltb_lt in H
         end.

(** X10. For a call in PASSTHROUGH or VOICEMAIL_DELIVERED, or without
    a session, the resolver yields null and does nothing; yet the chunk
    still goes into the transcript window of the call. *)
Theorem resolver_silent_outside w t c sr vm st :
  getCallState c st ≠ INITIAL → getCallState c st ≠ IOS26_MONITORING →
  result (processTranscriptionWithScenarios w t c sr vm) st =
    (None, after (setTranscript c (accumulate (callTranscripts st !! c) t)) st,
     []).
Proof.
  unfold getCallState, after, setTranscript, modify. intros H1 H2. revert H1 H2.
  destruct st as [cs ts ss as_ ps].
  cbn [callStates callTranscripts callStartTimes amdResults processedActions
       fst snd].
  destruct (cs !! c) as [[]|] eqn:Hc; cbn [default from_option id];
    intros H1 H2; try contradiction.
  all: exec_all; reflexivity.
Qed.

Lemma resolver_silent_outside_witness :
  getCallState "CA1" passed_through_session = PASSTHROUGH
  ∧ fst (fst (result (processTranscriptionWithScenarios (quiet 12000)
                        "please leave a message" "CA1" "" "")
                passed_through_session)) = None.
Proof.
  split; [vm_compute; reflexivity|].
  rewrite (resolver_silent_outside (quiet 12000) "please leave a message"
             "CA1" "" "" passed_through_session);
    [reflexivity | vm_compute; discriminate | vm_compute; discriminate].
Defined.

(** X11. The time windows of a session that is still INITIAL: a
    passthrough is only sent between 5 and 35 seconds into the call, a
    voicemail only left in the first 30 seconds, the identification is
    only inferred from an intermediate prompt in the first 12 seconds;
    from 35 seconds on nothing but a preamble is detected any more. *)
Theorem timing_windows w t c sr vm st :
  getCallState c st = INITIAL →
  let el := getCallElapsedTime w c st in
  match result (processTranscriptionWithScenarios w t c sr vm) st with
  | (r, _, tr) =>
      (invocations c Passthrough tr = 1%nat → 5000 < el < 35000)
      ∧ (invocations c LeaveVoicemail tr = 1%nat → el < 30000)
      ∧ (∀ d, r = Some d → type d = scenario1_inferred → el < 12000)
      ∧ (35000 ≤ el → r ≠ None →
           r = Some (mkDetection true scenario1 ios26_response))
  end.
Proof.
  unfold getCallState. intros H. revert H.
  destruct st as [cs ts ss as_ ps].
  cbn [callStates].
  destruct (cs !! c) as [[]|] eqn:Hc; cbn [default from_option id];
    intros H; try discriminate H.
  destruct (play_cases w c sr) as (x & sent & Hplay).
  cbv zeta.
  exec_all; rewrite ?Hplay; try destruct sent; cbn [app]; tally; times.
  all: (split; [intros Hp; first [discriminate Hp | lia]|]).
  all: (split; [intros Hp; first [discriminate Hp | lia]|]).
  all: (split;
        [intros d Hd Ht;
         first [discriminate Hd
               | injection Hd as <-; first [discriminate Ht | lia]]|]).
  all: intros Hl Hr; first [reflexivity | contradiction | lia].
Qed.

Lemma timing_windows_witness :
  getCallState "CA1" ringing_session = INITIAL
  ∧ 5000 < getCallElapsedTime (quiet 9000) "CA1" ringing_session < 35000.
Proof.
  assert (Hs : getCallState "CA1" ringing_session = INITIAL)
    by (vm_compute; reflexivity).
  split; [exact Hs|].
  pose proof (timing_windows (quiet 9000) "hello, who is this?" "CA1" "" ""
                ringing_session Hs) as H.
  cbv zeta in H.
  remember (result (processTranscriptionWithScenarios (quiet 9000)
                      "hello, who is this?" "CA1" "" "") ringing_session)
    as res eqn:E.
  vm_compute in E. subst res. cbv beta iota in H.
  destruct H as (H & _). apply H. vm_compute. reflexivity.
Defined.

(** X12. While the session is INITIAL, a preamble phrase in the
    transcript window always leads to the identification, whatever the
    time, the machine-detection result and the other phrases heard:
    the identification is invoked once, no voicemail is left and no
    passthrough sent, and the session moves to IOS26_MONITORING. *)
Theorem preamble_in_window_wins w t c sr vm st :
  getCallState c st = INITIAL →
  detectIOS26Patterns (accumulate (callTranscripts st !! c) t) = true →
  match result (processTranscriptionWithScenarios w t c sr vm) st with
  | (_, st', tr) =>
      invocations c Identify tr = 1%nat
      ∧ terminal_invocations c tr = 0%nat
      ∧ getCallState c st' = IOS26_MONITORING
  end.
Proof.
  unfold getCallState. intros H. revert H.
  destruct st as [cs ts ss as_ ps].
  cbn [callStates callTranscripts].
  destruct (cs !! c) as [[]|] eqn:Hc; cbn [default from_option id];
    intros H Hp; try discriminate H.
  destruct (play_cases w c sr) as (x & sent & Hplay).
  exec; norm.
  repeat (repeat (progress (rewrite ?Hp, ?andb_false_r, ?orb_true_r;
                            cbn [negb andb orb]; norm));
          split_if).
  all: repeat (progress (rewrite ?Hp, ?andb_false_r, ?orb_true_r;
                         cbn [negb andb orb]; norm)).
  all: rewrite ?Hplay; try destruct sent; cbn [app]; tally.
  all: unfold getCallState; cbn [callStates]; rewrite ?lookup_insert_eq; cbn.
  all: repeat split.
Qed.

Lemma preamble_in_window_wins_witness :
  getCallState "CA1" ringing_session = INITIAL
  ∧ detectIOS26Patterns
      (accumulate (callTranscripts ringing_session !! "CA1")
         "voicemail. please state your name") = true
  ∧ getCallState "CA1"
      (snd (fst (result (processTranscriptionWithScenarios (quiet 4000)
                           "voicemail. please state your name" "CA1" "" "")
                   ringing_session))) = IOS26_MONITORING.
Proof.
  assert (Hs : getCallState "CA1" ringing_session = INITIAL)
    by (vm_compute; reflexivity).
  assert (Hp : detectIOS26Patterns
                 (accumulate (callTranscripts ringing_session !! "CA1")
                    "voicemail. please state your name") = true)
    by (vm_compute; reflexivity).
  split; [exact Hs|]. split; [exact Hp|].
  pose proof (preamble_in_window_wins (quiet 4000)
                "voicemail. please state your name" "CA1" "" ""
                ringing_session Hs Hp) as H.
  destruct (result (processTranscriptionWithScenarios (quiet 4000)
                      "voicemail. please state your name" "CA1" "" "")
              ringing_session) as [[r st'] tr].
  exact (proj2 (proj2 H)).
Defined.

(** X13. An identification that was invoked is never taken back: the
    session was INITIAL and is IOS26_MONITORING afterwards, no tag is
    added, and the resolver yields null exactly when the dispatcher
    reported ABORTED. *)
Theorem identification_not_rolled_back w t c sr vm st :
  match result (processTranscriptionWithScenarios w t c sr vm) st with
  | (r, st', tr) =>
      invocations c Identify tr = 1%nat →
      getCallState c st = INITIAL
      ∧ getCallState c st' = IOS26_MONITORING
      ∧ processedActions st' = processedActions st
      ∧ (r = None ↔ fst (playIOS26Response w c sr) = ABORTED)
  end.
Proof.
  destruct st as [cs ts ss as_ ps].
  destruct (cs !! c) as [[]|] eqn:Hc.
  all: exec_all.
  all: destruct (play_cases w c sr) as (x & sent & Hplay);
    rewrite ?Hplay in *; cbn [fst snd] in *; destruct sent.
  all: cbn [app]; tally; intros Hi; try discriminate Hi.
  all: unfold getCallState; cbn [callStates processedActions];
    rewrite ?lookup_insert_eq, ?Hc; cbn [default from_option id].
  all: repeat match goal with
              | H : bool_decide _ = true |- _ => apply bool_decide_eq_true in H
              | H : bool_decide _ = false |- _ => apply bool_decide_eq_false in H
              end.
  all: repeat split; try done.
Qed.

Lemma identification_not_rolled_back_witness :
  let outcome := result (processTranscriptionWithScenarios completed_call
                       "please state your name" "CA1" "" "")
               ringing_session in
  invocations "CA1" Identify (snd outcome) = 1%nat
  ∧ getCallState "CA1" (snd (fst outcome)) = IOS26_MONITORING
  ∧ fst (fst outcome) = None.
Proof.
  intros outcome.
  pose proof (identification_not_rolled_back completed_call
                "please state your name" "CA1" "" "" ringing_session) as H.
  fold outcome in H. destruct outcome as [[r st'] tr] eqn:E.
  assert (Hi : invocations "CA1" Identify tr = 1%nat).
  { apply (f_equal snd) in E. cbn [snd] in E. subst tr.
    vm_compute. reflexivity. }
  destruct (H Hi) as (_ & Hs & _ & Hr).
  split; [exact Hi|]. split; [exact Hs|].
  apply Hr. vm_compute. reflexivity.
Defined.

(** ** The maps stay consistent *)

Lemma not_fired (tag : string) :
  @bool_decide (tag ∈ (∅ : gset string)) (decide_rel (∈) tag ∅) = false.
Proof. apply bool_decide_eq_false. apply not_elem_of_empty. Qed.

Ltac exec_unfired :=
  exec; norm; repeat rewrite not_fired; cbn [negb andb orb];
  repeat (split_if; norm; repeat rewrite not_fired; cbn [negb andb orb]).


(** X14. On a consistent store every resolving event acts: whenever
    the condition of some branch holds, the action of the first such
    branch is invoked exactly once, so that the duplicate guards never
    stop anything; and the resolver yields null then only for an
    identification that the dispatcher aborted. *)
Theorem every_resolving_event_acts w t c sr vm st :
  consistent c st →
  let v := view_of w t c st in
  match result (processTranscriptionWithScenarios w t c sr vm) st with
  | (r, _, tr) =>
      ∀ b, first_resolving v = Some b →
        invocations c (requested b v) tr = 1%nat
        ∧ (r = None →
             (b = PreambleDetection ∨ b = RetroactiveInference)
             ∧ fst (playIOS26Response w c sr) = ABORTED)
  end.
Proof.
  intros Hk v. remember (first_resolving v) as F eqn:HF.
  revert Hk. unfold consistent. destruct st as [cs ts ss as_ ps].
  cbn [callStates callTranscripts callStartTimes processedActions].
  destruct (cs !! c) as [[]|] eqn:Hc; cbn [tags_of].
  all: intros Hk.
  all: destruct Hk as [Hs Hp].
  all: try contradiction.
  all: try (destruct Hp as (tag & Hp & Htag)).
  all: exec_unfired.
  all: unfold first_resolving, priority, List.find, resolves in HF;
    subst v; unfold requested; unfold_view;
    unfold view_of, machine, preamble_seen, voicemail_heard, human_heard,
      isPreamble, isIntermediatePrompt, isVoicemailGreeting, isHumanSpeech in HF;
    cbn [state elapsed machineSignal text window fired] in HF;
    unfold getCallState, getAMDResult, hasProcessedAction in HF;
    cbn [callStates callTranscripts callStartTimes amdResults processedActions]
      in HF;
    rewrite ?Hc, ?Hp in HF;
    cbn [is_state andb orb negb default from_option id] in HF;
    repeat rewrite not_fired in HF;
    rewrite ?fallback_condition, ?negb_orb in HF;
    cbn [is_state andb orb negb default from_option id] in HF;
    use_conditions_in HF; subst F.
  all: intros b Hb; first [discriminate Hb | injection Hb as <-].
  all: use_conditions.
  all: destruct (play_cases w c sr) as (x & sent & Hplay);
    rewrite ?Hplay in *; cbn [fst snd] in *; destruct sent.
  all: (split; [tally; reflexivity|]).
  all: intros Hr; try discriminate Hr.
  all: repeat match goal with
              | H : bool_decide _ = true |- _ => apply bool_decide_eq_true in H
              end.
  all: (split; [tauto | assumption]).
Qed.

Lemma every_resolving_event_acts_witness :
  consistent "CA1" ringing_session
  ∧ invocations "CA1" Passthrough
      (snd (result (processTranscriptionWithScenarios (quiet 9000)
                      "hello, who is this?" "CA1" "" "") ringing_session))
    = 1%nat.
Proof.
  assert (Hk : consistent "CA1" ringing_session).
  { vm_compute. split; [eexists; reflexivity | reflexivity]. }
  split; [exact Hk|].
  pose proof (every_resolving_event_acts (quiet 9000) "hello, who is this?"
                "CA1" "" "" ringing_session Hk) as H.
  cbv zeta in H.
  remember (result (processTranscriptionWithScenarios (quiet 9000)
                      "hello, who is this?" "CA1" "" "") ringing_session)
    as res eqn:E.
  vm_compute in E. subst res. cbv beta iota in H.
  exact (proj1 (H EarlyHuman eq_refl)).
Defined.








(** ** Calls do not meet *)

Lemma trace_cons ctx we evs st :
  trace ctx (we :: evs) st =
    snd (step ctx we st) ++ trace ctx evs (fst (step ctx we st)).
Proof. reflexivity. Qed.

(** X16. Webhooks of other calls leave a call alone: replaying any
    sequence of webhooks none of which carries the call id changes none
    of the five entries of the call and does nothing for it. *)
Theorem calls_isolated ctx evs st c :
  Forall (λ we, CallSid (snd we) ≠ c) evs →
  let st' := final ctx evs st in
  callStates st' !! c = callStates st !! c
  ∧ callTranscripts st' !! c = callTranscripts st !! c
  ∧ callStartTimes st' !! c = callStartTimes st !! c
  ∧ amdResults st' !! c = amdResults st !! c
  ∧ processedActions st' !! c = processedActions st !! c
  ∧ Forall (λ x, effect_sid x ≠ c) (trace ctx evs st).
Proof.
  intros H. revert st. induction H as [|[w e] evs Hne _ IH]; intros st.
  - cbn. repeat split. constructor.
  - cbn [snd] in Hne.
    assert (Hne' : c ≠ CallSid e) by congruence.
    destruct (step_frame ctx w e st c Hne') as (H1 & H2 & H3 & H4 & H5 & H6).
    specialize (IH (fst (step ctx (w, e) st))). cbv zeta in IH.
    destruct IH as (I1 & I2 & I3 & I4 & I5 & I6).
    cbv zeta. rewrite final_cons, trace_cons.
    rewrite I1, I2, I3, I4, I5, H1, H2, H3, H4, H5.
    repeat split. apply Forall_app. split; [|exact I6].
    eapply Forall_impl; [exact H6|]. cbn. intros x ->. congruence.
Qed.

Lemma calls_isolated_witness :
  Forall (λ we, CallSid (snd we) ≠ "CA2") direct_answer_twice
  ∧ callStates (final defaults direct_answer_twice ringing_session) !! "CA2"
    = callStates ringing_session !! "CA2".
Proof.
  assert (H : Forall (λ we : World * Event, CallSid (snd we) ≠ "CA2")
                direct_answer_twice)
    by (repeat constructor; discriminate).
  split; [exact H|].
  exact (proj1 (calls_isolated defaults direct_answer_twice ringing_session
                  "CA2" H)).
Defined.

(** ** The webhooks, kind by kind *)

(** Unfold the handler where its result is asked for. *)
Ltac hrun :=
  unfold result; unfold handler;
  cbn [CallSid CallStatus AnsweredBy TranscriptionEvent TranscriptionData fst snd];
  cbv beta iota zeta delta
    [bind when ret return_ gets modify emit call setAMDResult
     initializeCallState cleanupCallState deleteTranscript has_payload
     getCallState].

Ltac open_event e st :=
  destruct st as [cs ts ss as_ ps]; destruct e as [c status amd tev data];
  unfold getCallState, after, setAMDResult, deleteTranscript,
    initializeCallState, cleanupCallState, bind, modify, emit;
  cbn [CallSid CallStatus AnsweredBy TranscriptionEvent TranscriptionData
       callStates callTranscripts callStartTimes amdResults processedActions
       fst snd].

Ltac hpaths :=
  hrun; hnorm;
  repeat (first [split_opt | split_payload | split_if]; hnorm).

Lemma step_result ctx w e st r st' tr :
  result (handler ctx w e) st = (r, st', tr) → step ctx (w, e) st = (st', tr).
Proof. unfold step. cbn [fst snd]. intros ->. reflexivity. Qed.

(** X17. Once a session is in PASSTHROUGH or VOICEMAIL_DELIVERED, a
    webhook for the call that carries no transcription event is
    answered at once and changes nothing: a machine-detection result is
    not recorded any more, and a final status such as completed does
    not delete the session, whose entries therefore stay in the maps. *)
Theorem terminal_session_ignores ctx w e st :
  truthy_opt (TranscriptionEvent e) = false →
  Js.truthy (CallSid e) = true →
  terminal (getCallState (CallSid e) st) = true →
  result (handler ctx w e) st = (EmptyResponse, st, []).
Proof.
  open_event e st. intros Htev Hsid.
  destruct (cs !! c) as [[]|] eqn:Hc; cbn; intros Ht;
    try discriminate Ht; clear Ht.
  all: hpaths; reflexivity.
Qed.

Lemma terminal_session_ignores_witness :
  terminal (getCallState "CA1" passed_through_session) = true
  ∧ step defaults (quiet 30000, lifecycleEvent "CA1" "completed")
      passed_through_session
    = (passed_through_session, []).
Proof.
  assert (H : terminal (getCallState "CA1" passed_through_session) = true)
    by (vm_compute; reflexivity).
  split; [exact H|].
  apply (step_result defaults (quiet 30000) (lifecycleEvent "CA1" "completed")
           passed_through_session EmptyResponse).
  apply (terminal_session_ignores defaults (quiet 30000)
           (lifecycleEvent "CA1" "completed") passed_through_session);
    [reflexivity | reflexivity | exact H].
Defined.

(** X18. A webhook with a machine-detection result, for a call whose
    session is not in a terminal state, records the result for the
    call, replacing an earlier one, and does nothing else, whatever
    else the webhook carries: no state changes, nothing is sent, and
    the answer is empty. *)
Theorem amd_webhook ctx w e st a :
  AnsweredBy e = Some a → Js.truthy a = true →
  terminal (getCallState (CallSid e) st) = false →
  result (handler ctx w e) st =
    (EmptyResponse, after (setAMDResult (CallSid e) a) st, [])
  ∧ getAMDResult (CallSid e) (after (setAMDResult (CallSid e) a) st) = Some a.
Proof.
  intros Ha Ht Hs. split.
  - revert Ha Ht Hs. open_event e st. intros -> Ha.
    assert (Hamd : truthy_opt (Some a) = true) by exact Ha.
    destruct (cs !! c) as [[]|] eqn:Hc; cbn; intros Ht;
      try discriminate Ht; clear Ht.
    all: hpaths; reflexivity.
  - unfold getAMDResult, after, setAMDResult, modify. cbn [fst snd amdResults].
    apply lookup_insert_eq.
Qed.

Lemma amd_webhook_witness :
  terminal (getCallState "CA1" ringing_session) = false
  ∧ getAMDResult "CA1"
      (fst (step defaults (quiet 3000, amdEvent "CA1" "machine_start")
              ringing_session))
    = Some "machine_start".
Proof.
  assert (H : terminal (getCallState "CA1" ringing_session) = false)
    by (vm_compute; reflexivity).
  split; [exact H|].
  destruct (amd_webhook defaults (quiet 3000) (amdEvent "CA1" "machine_start")
              ringing_session "machine_start" eq_refl eq_refl H) as [Hr Hg].
  rewrite (step_result _ _ _ _ _ _ _ Hr). exact Hg.
Defined.

Lemma termination_result ctx w e st :
  termination_event e →
  terminal (getCallState (CallSid e) st) = false →
  result (handler ctx w e) st =
    (EmptyResponse, after (cleanupCallState (CallSid e)) st,
     [Cleanup (CallSid e)]).
Proof.
  intros (Hamd & Htev & v & Hv & Hst). revert Hamd Htev Hv.
  open_event e st. intros Hamd Htev ->.
  no_transcription_event Htev.
  destruct Hst as [-> | [-> | [-> | ->]]].
  all: destruct (cs !! c) as [[]|] eqn:Hc; cbn; intros Ht;
    try discriminate Ht; clear Ht.
  all: hpaths; reflexivity.
Qed.

Lemma initialization_result ctx w e st :
  initialization_event e →
  callStates st !! CallSid e = None →
  result (handler ctx w e) st =
    (StartTranscriptionResponse, after (initializeCallState w (CallSid e)) st,
     [Initialize (CallSid e)]).
Proof.
  intros (Hamd & Htev & Hstatus). revert Hamd Htev Hstatus.
  open_event e st. intros Hamd Htev Hstatus Hc.
  no_transcription_event Htev.
  destruct Hstatus as [(v & -> & [-> | [-> | [-> | ->]]]) | [Hst Hsid]];
    [ | | | | no_status Hst].
  all: hpaths; reflexivity.
Qed.

(** X19. A webhook with a final status (completed, failed, canceled,
    no-answer) for a call whose session is not in a terminal state
    deletes the call from all five maps and does nothing else: the call
    is unknown afterwards, with no start time, no window, no
    machine-detection result and no tag. *)
Theorem termination_webhook ctx w e st :
  termination_event e →
  terminal (getCallState (CallSid e) st) = false →
  step ctx (w, e) st =
    (after (cleanupCallState (CallSid e)) st, [Cleanup (CallSid e)])
  ∧ absent (CallSid e) (fst (step ctx (w, e) st))
  ∧ getCallState (CallSid e) (fst (step ctx (w, e) st)) = UNKNOWN.
Proof.
  intros He Ht.
  rewrite (step_result _ _ _ _ _ _ _ (termination_result ctx w e st He Ht)).
  split; [reflexivity|].
  unfold absent, getCallState, after, cleanupCallState, bind, modify, emit.
  cbn [fst snd callStates callTranscripts callStartTimes amdResults
       processedActions].
  rewrite !lookup_delete_eq. repeat split.
Qed.

Lemma termination_webhook_witness :
  termination_event (lifecycleEvent "CA1" "no-answer")
  ∧ terminal (getCallState "CA1" ringing_session) = false
  ∧ getCallState "CA1"
      (fst (step defaults (quiet 30000, lifecycleEvent "CA1" "no-answer")
              ringing_session)) = UNKNOWN.
Proof.
  assert (He : termination_event (lifecycleEvent "CA1" "no-answer")).
  { repeat split. exists "no-answer". split; [reflexivity|].
    right; right; right; reflexivity. }
  assert (H : terminal (getCallState "CA1" ringing_session) = false)
    by (vm_compute; reflexivity).
  split; [exact He|]. split; [exact H|].
  exact (proj2 (proj2 (termination_webhook defaults (quiet 30000)
                         (lifecycleEvent "CA1" "no-answer") ringing_session
                         He H))).
Defined.

(** X20. A transcription-stopped webhook deletes the transcript window
    of the call and nothing else: state, start time, machine-detection
    result and tags stay, in whatever state the session is. *)
Theorem transcription_stopped_webhook ctx w e st :
  truthy_opt (AnsweredBy e) = false →
  TranscriptionEvent e = Some "transcription-stopped" →
  result (handler ctx w e) st =
    (EmptyResponse, after (deleteTranscript (CallSid e)) st, []).
Proof.
  open_event e st. intros Hamd ->.
  hpaths; reflexivity.
Qed.

Lemma transcription_stopped_webhook_witness :
  let stopped := mkEvent "CA1" None None (Some "transcription-stopped") NoData in
  fst (step defaults (quiet 30000, stopped) passed_through_session)
  = after (deleteTranscript "CA1") passed_through_session.
Proof.
  intros stopped.
  rewrite (step_result _ _ _ _ _ _ _
             (transcription_stopped_webhook defaults (quiet 30000) stopped
                passed_through_session eq_refl eq_refl)).
  reflexivity.
Defined.

(** X21. A call that begins and ends before anything is detected
    leaves no trace: for a call without any entry, an initialization
    webhook followed by a webhook with a final status gives back the
    store as it was, the session having been created and deleted. *)
Theorem session_round_trip ctx w w' e e' st :
  initialization_event e → termination_event e' → CallSid e' = CallSid e →
  absent (CallSid e) st →
  final ctx [(w, e); (w', e')] st = st
  ∧ trace ctx [(w, e); (w', e')] st =
      [Initialize (CallSid e); Cleanup (CallSid e)].
Proof.
  intros He He' Hsid (H1 & H2 & H3 & H4 & H5).
  pose proof (step_result _ _ _ _ _ _ _ (initialization_result ctx w e st He H1))
    as Hi.
  unfold final, trace. cbn [foldl]. rewrite Hi. cbn [fst snd].
  match goal with
  | |- context [step ctx (w', e') ?s] =>
      assert (Ht : terminal (getCallState (CallSid e') s) = false)
        by (unfold getCallState, after, initializeCallState, bind, modify, emit;
            cbn [fst snd callStates];
            rewrite Hsid, lookup_insert_eq; reflexivity);
      rewrite (step_result _ _ _ _ _ _ _ (termination_result ctx w' e' s He' Ht))
  end.
  rewrite Hsid. split; [|reflexivity].
  destruct st as [cs ts ss as_ ps].
  unfold after, cleanupCallState, initializeCallState, bind, modify, emit.
  cbn [fst snd callStates callTranscripts callStartTimes amdResults
       processedActions] in *.
  rewrite !delete_insert_eq, !delete_id by assumption. reflexivity.
Qed.

Lemma session_round_trip_witness :
  initialization_event (lifecycleEvent "CA1" "ringing")
  ∧ termination_event (lifecycleEvent "CA1" "canceled")
  ∧ absent "CA1" emptyStore
  ∧ final defaults [ (quiet 1000, lifecycleEvent "CA1" "ringing");
                     (quiet 7000, lifecycleEvent "CA1" "canceled") ] emptyStore
    = emptyStore.
Proof.
  assert (He : initialization_event (lifecycleEvent "CA1" "ringing")).
  { repeat split. left. exists "ringing". split; [reflexivity|].
    right; left; reflexivity. }
  assert (He' : termination_event (lifecycleEvent "CA1" "canceled")).
  { repeat split. exists "canceled". split; [reflexivity|].
    right; right; left; reflexivity. }
  assert (Ha : absent "CA1" emptyStore) by (repeat split).
  split; [exact He|]. split; [exact He'|]. split; [exact Ha|].
  exact (proj1 (session_round_trip defaults (quiet 1000) (quiet 7000)
                  (lifecycleEvent "CA1" "ringing")
                  (lifecycleEvent "CA1" "canceled") emptyStore
                  He He' eq_refl Ha)).
Defined.

Ltac handler_result_paths e st :=
  destruct st as [cs ts ss as_ ps];
  destruct e as [c status amd tev data];
  hrun; hnorm;
  repeat (first [split_call | split_opt | split_payload | split_if]; hnorm).

Ltac by_states cs c :=
  unfold getCallState, terminal, after, initializeCallState, bind, modify, emit;
  cbn [fst snd callStates callTranscripts callStartTimes amdResults
       processedActions];
  by_state cs c;
  repeat split; try reflexivity; try discriminate.

(** What the answer of the handler tells, and what a webhook other
    than a transcript chunk can do. *)
Lemma handler_summary ctx w e st :
  match result (handler ctx w e) st with
  | (resp, st', tr) =>
      (resp = StartTranscriptionResponse →
         terminal (getCallState (CallSid e) st) = false
         ∧ getCallState (CallSid e) st ≠ IOS26_MONITORING
         ∧ st' = after (initializeCallState w (CallSid e)) st
         ∧ tr = [Initialize (CallSid e)])
      ∧ (resp = ContinueResponse → st' = st ∧ tr = [])
      ∧ (is_str (TranscriptionEvent e) "transcription-content" = false →
           forallb bookkeeping tr = true)
  end.
Proof.
  handler_result_paths e st.
  all: cbn [CallSid TranscriptionEvent].
  all: split;
    [ intros Hresp; first [discriminate Hresp | by_states cs c]
    | split;
      [ intros Hresp; first [discriminate Hresp | by_states cs c]
      | intros Hne;
        repeat match goal with
               | H : context [is_str _ "transcription-content" && _] |- _ =>
                   rewrite Hne in H
               end;
        cbn [andb] in *;
        first [discriminate | reflexivity] ] ].
Qed.

(** X22. The answer tells what was done.  The TwiML that starts the
    transcription is only returned by a webhook that has just created
    or re-created the session, for a call that had no session or an
    INITIAL one, and that did nothing else; the TwiML that merely keeps
    the call open is only returned when nothing at all was changed or
    done.  Whenever an action is invoked the answer is empty. *)
Theorem response_tells ctx w e st :
  match result (handler ctx w e) st with
  | (resp, st', tr) =>
      (resp = StartTranscriptionResponse →
         terminal (getCallState (CallSid e) st) = false
         ∧ getCallState (CallSid e) st ≠ IOS26_MONITORING
         ∧ st' = after (initializeCallState w (CallSid e)) st
         ∧ tr = [Initialize (CallSid e)])
      ∧ (resp = ContinueResponse → st' = st ∧ tr = [])
  end.
Proof.
  pose proof (handler_summary ctx w e st) as H.
  destruct (result (handler ctx w e) st) as [[resp st'] tr].
  split; apply H.
Qed.

Lemma response_tells_witness :
  let answer := result (handler defaults (quiet 1000)
                          (lifecycleEvent "CA1" "in-progress")) emptyStore in
  fst (fst answer) = StartTranscriptionResponse
  ∧ snd answer = [Initialize "CA1"].
Proof.
  intros answer.
  pose proof (response_tells defaults (quiet 1000)
                (lifecycleEvent "CA1" "in-progress") emptyStore) as H.
  fold answer in H. destruct answer as [[resp st'] tr] eqn:E.
  assert (Hr : resp = StartTranscriptionResponse).
  { apply (f_equal (λ x, fst (fst x))) in E. cbn [fst] in E. subst resp.
    vm_compute. reflexivity. }
  split; [exact Hr|].
  exact (proj2 (proj2 (proj2 (proj1 H Hr)))).
Defined.

(** X23. Only a transcript chunk makes the handler act on the live
    call: a webhook whose transcription event is not
    transcription-content, be it a lifecycle, a machine-detection, a
    transcription-started or a transcription-stopped webhook, at most
    creates or deletes the session; it invokes no action, sends no
    update, sets no state and adds no tag. *)
Theorem only_transcripts_act ctx w e st :
  is_str (TranscriptionEvent e) "transcription-content" = false →
  forallb bookkeeping (snd (step ctx (w, e) st)) = true
  ∧ ∀ a, invocations (CallSid e) a (snd (step ctx (w, e) st)) = 0%nat.
Proof.
  intros Hne. pose proof (handler_summary ctx w e st) as H.
  unfold step. cbn [fst snd].
  destruct (result (handler ctx w e) st) as [[resp st'] tr].
  destruct H as (_ & _ & H). specialize (H Hne). cbn [snd].
  split; [exact H|].
  intros a. unfold invocations, count.
  clear -H. induction tr as [|x tr IH]; [reflexivity|].
  cbn [forallb] in H. apply andb_true_iff in H as [Hx Htr].
  destruct x; try discriminate Hx; cbn [List.filter is_invoke]; apply IH, Htr.
Qed.

Lemma only_transcripts_act_witness :
  is_str (TranscriptionEvent (amdEvent "CA1" "human")) "transcription-content"
  = false
  ∧ invocations "CA1" Passthrough
      (snd (step defaults (quiet 9000, amdEvent "CA1" "human") ringing_session))
    = 0%nat.
Proof.
  assert (H : is_str (TranscriptionEvent (amdEvent "CA1" "human"))
                "transcription-content" = false) by reflexivity.
  split; [exact H|].
  exact (proj2 (only_transcripts_act defaults (quiet 9000)
                  (amdEvent "CA1" "human") ringing_session H) Passthrough).
Defined.

(** ** Transcript webhooks at the edges *)

(** X24. A transcript webhook whose chunk is missing, empty or white
    space only, for a call that has a session, is skipped: nothing
    changes, nothing is done, the answer is empty. *)
Theorem blank_chunk_ignored ctx w e st :
  blank_chunk e → is_Some (callStates st !! CallSid e) →
  result (handler ctx w e) st = (EmptyResponse, st, []).
Proof.
  intros (Hamd & Htev & Hdata) [s Hc]. revert Hamd Htev Hdata Hc.
  open_event e st. intros Hamd -> Hdata Hc.
  destruct Hdata as [-> | (t & -> & Ht)].
  - hpaths; reflexivity.
  - hpaths; reflexivity.
Qed.

Lemma blank_chunk_ignored_witness :
  blank_chunk (transcriptEvent "CA1" "   ")
  ∧ step defaults (quiet 9000, transcriptEvent "CA1" "   ") ringing_session
    = (ringing_session, []).
Proof.
  assert (He : blank_chunk (transcriptEvent "CA1" "   ")).
  { repeat split. right. exists "   ". split; reflexivity. }
  split; [exact He|].
  apply (step_result defaults (quiet 9000) (transcriptEvent "CA1" "   ")
           ringing_session EmptyResponse).
  apply (blank_chunk_ignored defaults (quiet 9000) (transcriptEvent "CA1" "   ")
           ringing_session He).
  vm_compute. eauto.
Defined.

(** With no time elapsed the resolver sends no passthrough. *)
Lemma process_at_start w t c sr vm st :
  callStates st !! c = Some INITIAL →
  getCallElapsedTime w c st = 0 →
  match result (processTranscriptionWithScenarios w t c sr vm) st with
  | (_, st', tr) =>
      invocations c Passthrough tr = 0%nat
      ∧ callStartTimes st' = callStartTimes st
  end.
Proof.
  destruct st as [cs ts ss as_ ps]. cbn [callStates]. intros Hc Hel.
  destruct (play_cases w c sr) as (x & sent & Hplay).
  all: exec; norm; rewrite ?Hel;
    change (5000 <? 0) with false; change (20000 <? 0) with false;
    cbn [andb orb negb]; norm.
  all: repeat (split_if; norm).
  all: rewrite ?Hplay; try destruct sent; cbn [app]; tally.
  all: split; reflexivity.
Qed.

(** X25. A chunk that arrives for a call without a session, before
    any lifecycle webhook, creates the session first and is resolved
    with no time elapsed: whatever it says, and whatever machine
    detection has reported, the call is not passed through on this
    webhook; and the elapsed time read at the same clock is still 0
    afterwards. *)
Theorem first_chunk_never_passes_through ctx w e st :
  chunk_event e → callStates st !! CallSid e = None →
  match step ctx (w, e) st with
  | (st', tr) =>
      head tr = Some (Initialize (CallSid e))
      ∧ invocations (CallSid e) Passthrough tr = 0%nat
      ∧ getCallElapsedTime w (CallSid e) st' = 0
  end.
Proof.
  intros (Hamd & Htev & t & Hdata). revert Hamd Htev Hdata.
  destruct st as [cs ts ss as_ ps]; destruct e as [c status amd tev data].
  cbn [CallSid CallStatus AnsweredBy TranscriptionEvent TranscriptionData
       callStates callTranscripts callStartTimes amdResults processedActions].
  intros Hamd -> -> Hc.
  hexec; hnorm.
  repeat (first [split_opt | split_payload | split_if]; hnorm).
  all: try match goal with
       | |- context [result (processTranscriptionWithScenarios ?w' ?t' ?c' ?sr ?vm) ?s] =>
           let P := fresh "Hstart" in
           assert (P : getCallElapsedTime w' c' s = 0)
             by (unfold getCallElapsedTime; cbn [callStartTimes];
                 rewrite lookup_insert_eq; destruct (now w' =? 0); lia);
           pose proof (process_at_start w' t' c' sr vm s
                         (lookup_insert_eq _ _ _) P) as Hrun;
           destruct (result (processTranscriptionWithScenarios w' t' c' sr vm) s)
             as [[r s'] tr'];
           destruct Hrun as [Hrun Hss]
       end.
  all: repeat (first [split_opt | split_if]; hnorm).
  all: cbn [app head]; (split; [reflexivity|]).
  all: unfold getCallElapsedTime; rewrite ?Hss; cbn [callStartTimes];
    rewrite lookup_insert_eq.
  all: (split; [|destruct (now w =? 0); lia]).
  all: try reflexivity.
  all: rewrite ?app_nil_r; exact Hrun.
Qed.

Lemma first_chunk_never_passes_through_witness :
  chunk_event (transcriptEvent "CA1" "hello, who is this?")
  ∧ callStates emptyStore !! "CA1" = None
  ∧ invocations "CA1" Passthrough
      (snd (step defaults (quiet 9000, transcriptEvent "CA1" "hello, who is this?")
              emptyStore)) = 0%nat.
Proof.
  assert (He : chunk_event (transcriptEvent "CA1" "hello, who is this?")).
  { repeat split. exists "hello, who is this?". reflexivity. }
  assert (Hc : callStates emptyStore !! "CA1" = None) by reflexivity.
  split; [exact He|]. split; [exact Hc|].
  pose proof (first_chunk_never_passes_through defaults (quiet 9000)
                (transcriptEvent "CA1" "hello, who is this?") emptyStore He Hc)
    as H.
  destruct (step defaults (quiet 9000, transcriptEvent "CA1" "hello, who is this?")
              emptyStore) as [st' tr].
  exact (proj1 (proj2 H)).
Defined.

(** * Overlapping webhooks *)

(** ** A handler that never has to wait *)

Lemma bind_ext {R A B} (m m' : Proc R A) (k k' : A → Proc R B) st :
  (∀ s, m s = m' s) → (∀ a s, k a s = k' a s) → bind m k st = bind m' k' st.
Proof.
  intros Hm Hk. unfold bind. rewrite Hm.
  destruct (m' st) as [[[a|r] st1] tr1]; [rewrite Hk|]; reflexivity.
Qed.

Lemma when_ext {R} b (m m' : Proc R unit) st :
  (∀ s, m s = m' s) → when b m st = when b m' st.
Proof. intros Hm. destruct b; [apply Hm | reflexivity]. Qed.

Lemma call_ext {R R'} (m m' : Proc R R) st :
  (∀ s, m s = m' s) → @call R R' m st = call m' st.
Proof. intros Hm. unfold call, result. rewrite Hm. reflexivity. Qed.

Lemma straight_having_done {R A} tr0 (x : Overlapping.Susp R A) :
  Overlapping.straight (Overlapping.having_done tr0 x) =
    match Overlapping.straight x with (f, st, tr) => (f, st, tr0 ++ tr) end.
Proof.
  destruct x as [f st tr|st tr resume]; cbn; [reflexivity|].
  destruct (Overlapping.straight (resume st)) as [[f st'] tr'].
  rewrite app_assoc. reflexivity.
Qed.

Lemma straight_and_then {R A B} (x : Overlapping.Susp R A)
    (k : A → Overlapping.Async R B) :
  Overlapping.straight (Overlapping.and_then x k) =
    bind (λ _, Overlapping.straight x) (λ a s, Overlapping.straight (k a s))
      emptyStore.
Proof.
  unfold bind.
  induction x as [[a|r] st tr|st tr resume IH]; cbn.
  - apply straight_having_done.
  - reflexivity.
  - rewrite IH.
    destruct (Overlapping.straight (resume st)) as [[[a|r] st1] tr1].
    + destruct (Overlapping.straight (k a st1)) as [[f st2] tr2].
      rewrite app_assoc. reflexivity.
    + reflexivity.
Qed.

(** The body as a procedure that is never made to wait. *)
Lemma straight_abind {R A B} (m : Overlapping.Async R A)
    (k : A → Overlapping.Async R B) st :
  Overlapping.straight (Overlapping.abind m k st) =
    bind (λ s, Overlapping.straight (m s)) (λ a s, Overlapping.straight (k a s))
      st.
Proof. unfold Overlapping.abind. rewrite straight_and_then. reflexivity. Qed.

Lemma straight_atomic {R A} (m : Proc R A) st :
  Overlapping.straight (Overlapping.atomic m st) = m st.
Proof.
  unfold Overlapping.atomic. destruct (m st) as [[f st'] tr]. reflexivity.
Qed.

Lemma straight_suspend {R} call st :
  Overlapping.straight (@Overlapping.suspend R call st) = await call st.
Proof. cbn. rewrite app_nil_r. reflexivity. Qed.

Lemma straight_awhen {R} b (m : Overlapping.Async R unit) st :
  Overlapping.straight (Overlapping.awhen b m st) =
    when b (λ s, Overlapping.straight (m s)) st.
Proof. destruct b; reflexivity. Qed.

Lemma straight_returned {R R'} (x : Overlapping.Susp R R) :
  Overlapping.straight (@Overlapping.returned R R' x) =
    match Overlapping.straight x with
    | (Next r, st, tr) | (Return r, st, tr) => (Next r, st, tr)
    end.
Proof.
  induction x as [[a|r] st tr|st tr resume IH]; cbn; try reflexivity.
  rewrite IH.
  destruct (Overlapping.straight (resume st)) as [[[a|r] st1] tr1]; reflexivity.
Qed.

Lemma straight_acall {R R'} (m : Overlapping.Async R R) st :
  Overlapping.straight (@Overlapping.acall R R' m st) =
    call (λ s, Overlapping.straight (m s)) st.
Proof.
  unfold Overlapping.acall, call, result. rewrite straight_returned.
  destruct (Overlapping.straight (m st)) as [[[a|r] st1] tr1]; reflexivity.
Qed.

(** Push [straight] through a body, statement by statement. *)
Ltac alone :=
  repeat first
    [ progress cbv beta zeta
    | reflexivity
    | rewrite straight_atomic
    | rewrite straight_suspend
    | rewrite straight_abind; apply bind_ext; [intros ?|intros ? ?]
    | rewrite straight_awhen; apply when_ext; intros ?
    | rewrite straight_acall; apply call_ext; intros ? ].

(** Run alone, the suspended resolver is the resolver. *)
Lemma resolver_alone w t c sr vm st :
  Overlapping.straight
    (Overlapping.processTranscriptionWithScenarios w t c sr vm st)
  = processTranscriptionWithScenarios w t c sr vm st.
Proof.
  unfold Overlapping.processTranscriptionWithScenarios,
    processTranscriptionWithScenarios.
  alone.
Qed.


(** ** What a waiting resolver has written, and what it writes next *)

Ltac aexec :=
  cbv beta iota zeta delta
    [Overlapping.processTranscriptionWithScenarios Overlapping.abind
     Overlapping.and_then Overlapping.having_done Overlapping.atomic
     Overlapping.suspend Overlapping.awhen
     bind when ret return_ gets modify emit setCallState markActionProcessed
     setTranscript fst snd stopTranscriptionAndPassthrough
     leaveVoicemailMessage getCallState getAMDResult hasProcessedAction
     callStates callTranscripts callStartTimes amdResults processedActions].

Ltac written :=
  first [ reflexivity
        | unfold getCallState; cbn [callStates]; rewrite lookup_insert_eq;
          reflexivity ].

Ltac aexec_all := aexec; norm; repeat (split_if; aexec; norm).

(** Where the resolver waits.  For a passthrough it has written
    nothing but the window: state and tags are as the webhook found
    them, and when it is resumed it sets PASSTHROUGH and adds the tag
    without reading either again.  For a voicemail and for the
    identification the state is written before the wait. *)
Lemma where_the_resolver_waits w t c sr vm st :
  match Overlapping.processTranscriptionWithScenarios w t c sr vm st with
  | Overlapping.Ready _ _ tr => ∀ a, invocations c a tr = 0%nat
  | Overlapping.Waiting st' tr resume =>
      (invocations c Passthrough tr = 1%nat →
         callStates st' = callStates st
         ∧ processedActions st' = processedActions st
         ∧ ∀ s, ∃ d tag,
             resume s =
               Overlapping.Ready (Return (Some d))
                 (after (markActionProcessed c tag)
                    (after (setCallState c PASSTHROUGH) s))
                 [SetState c PASSTHROUGH; MarkAction c tag])
      ∧ (invocations c LeaveVoicemail tr = 1%nat →
           getCallState c st' = VOICEMAIL_DELIVERED)
      ∧ (invocations c Identify tr = 1%nat →
           getCallState c st' = IOS26_MONITORING)
      ∧ (invocations c Passthrough tr + invocations c LeaveVoicemail tr
         + invocations c Identify tr = 1)%nat
  end.
Proof.
  destruct st as [cs ts ss as_ ps].
  destruct (cs !! c) as [[]|] eqn:Hc.
  all: destruct (play_cases w c sr) as (x & sent & Hplay).
  all: aexec_all; rewrite ?Hplay; try destruct sent; cbn [app]; tally.
  all: try (intros a; destruct a; reflexivity).
  all: try (intros a; destruct a; reflexivity).
  all: split;
    [ intros Hi;
      first [ discriminate Hi
            | split; [reflexivity|]; split; [reflexivity|]; intros s;
              eexists _, _; reflexivity ]
    | split;
      [ intros Hi; first [discriminate Hi | written]
      | split;
        [ intros Hi; first [discriminate Hi | written]
        | reflexivity ] ] ].
Qed.

(** What the resolver yields and what it does are settled before it
    waits: whatever other handlers do to the maps in the meantime, the
    result and the effects are those of the resolver run alone. *)
Lemma overlap_changes_no_answer w t c sr vm st found :
  Overlapping.resumed found
    (Overlapping.processTranscriptionWithScenarios w t c sr vm st)
  = match processTranscriptionWithScenarios w t c sr vm st with
    | (f, _, tr) => (f, tr)
    end.
Proof.
  rewrite <- resolver_alone.
  destruct st as [cs ts ss as_ ps].
  destruct (cs !! c) as [[]|] eqn:Hc.
  all: aexec_all; cbn [Overlapping.resumed Overlapping.straight];
    aexec; reflexivity.
Qed.

(** ** Overlapping webhooks, evaluated *)

(** C1, evaluated on the code.  Wherever the resolver waits for
    [stopTranscriptionAndPassthrough], the state and the tags of the
    call are still as the webhook found them: the tag was asked for
    before the wait and is added after it.  So when the direct answer
    "hello, who is this?" is delivered a second time while the handler
    of the first delivery waits for its update to be sent, the second
    handler finds the session INITIAL and the tag unfired, and takes the
    same branch: [stopTranscriptionAndPassthrough] is entered twice and
    sends its update twice, and the tag human_passthrough is added
    twice, within one session that is never deleted.  Handled one after
    the other, the same webhooks pass the call through once. *)
Theorem duplicate_passes_through_twice :
  (∀ w t c sr vm st,
     match Overlapping.processTranscriptionWithScenarios w t c sr vm st with
     | Overlapping.Waiting st' tr _ =>
         invocations c Passthrough tr = 1%nat →
         getCallState c st' = getCallState c st
         ∧ ∀ tag, hasProcessedAction c tag st' = hasProcessedAction c tag st
     | Overlapping.Ready _ _ _ => True
     end)
  ∧ (let sys := Overlapping.play defaults duplicate_while_waiting
                  (Overlapping.idle emptyStore) in
     Overlapping.log sys =
       [ Initialize "CA1";
         Invoke "CA1" Passthrough; External "CA1" (UpdateCall StopTwiml);
         Invoke "CA1" Passthrough; External "CA1" (UpdateCall StopTwiml);
         SetState "CA1" PASSTHROUGH; MarkAction "CA1" "human_passthrough";
         SetState "CA1" PASSTHROUGH; MarkAction "CA1" "human_passthrough" ]
     ∧ invocations "CA1" Passthrough (Overlapping.log sys) = 2%nat
     ∧ count is_update (Overlapping.log sys) = 2%nat
     ∧ markings "CA1" "human_passthrough" (Overlapping.log sys) = 2%nat
     ∧ deleted "CA1" (Overlapping.log sys) = false
     ∧ Overlapping.suspended sys = [])
  ∧ Overlapping.log (Overlapping.play defaults duplicate_one_after_another
                       (Overlapping.idle emptyStore))
    = trace defaults direct_answer_twice emptyStore.
Proof.
  split; [|split].
  - intros w t c sr vm st.
    pose proof (where_the_resolver_waits w t c sr vm st) as H.
    destruct (Overlapping.processTranscriptionWithScenarios w t c sr vm st)
      as [f st' tr|st' tr resume]; [exact I|].
    intros Hi. destruct H as (H & _). destruct (H Hi) as (Hs & Hp & _).
    unfold getCallState, hasProcessedAction. rewrite Hs, Hp.
    split; [reflexivity | intros tag; reflexivity].
  - vm_compute. repeat split; reflexivity.
  - vm_compute. reflexivity.
Qed.

(** C2, evaluated on the code.  A resolver that waited for
    [stopTranscriptionAndPassthrough] sets PASSTHROUGH when it goes on,
    whatever state it finds then.  So when a voicemail phrase is
    transcribed while the handler of the direct answer waits for its
    update to be sent, the second handler finds the session INITIAL,
    adds voicemail_direct, sets VOICEMAIL_DELIVERED and leaves the
    voicemail; the first handler then goes on and sets PASSTHROUGH.  The
    states written for the call are INITIAL, VOICEMAIL_DELIVERED,
    PASSTHROUGH: one terminal state is changed to the other, in one
    session that is never deleted, and both LeaveVoicemail and
    Passthrough are invoked. *)
Theorem terminal_state_overwritten :
  (∀ w t c sr vm st,
     match Overlapping.processTranscriptionWithScenarios w t c sr vm st with
     | Overlapping.Waiting _ tr resume =>
         invocations c Passthrough tr = 1%nat →
         ∀ found,
           match resume found with
           | Overlapping.Ready _ st' tr' =>
               getCallState c st' = PASSTHROUGH
               ∧ observed c tr' = [PASSTHROUGH]
           | Overlapping.Waiting _ _ _ => False
           end
     | Overlapping.Ready _ _ _ => True
     end)
  ∧ (let sys := Overlapping.play defaults greeting_while_waiting
                  (Overlapping.idle emptyStore) in
     Overlapping.log sys =
       [ Initialize "CA1";
         Invoke "CA1" Passthrough; External "CA1" (UpdateCall StopTwiml);
         MarkAction "CA1" "voicemail_direct";
         SetState "CA1" VOICEMAIL_DELIVERED;
         Invoke "CA1" LeaveVoicemail;
         External "CA1"
           (UpdateCall (VoicemailTwiml "This is Twilio leaving a voicemail"));
         SetState "CA1" PASSTHROUGH; MarkAction "CA1" "human_passthrough" ]
     ∧ observed "CA1" (Overlapping.log sys)
       = [INITIAL; VOICEMAIL_DELIVERED; PASSTHROUGH]
     ∧ getCallState "CA1" (Overlapping.current sys) = PASSTHROUGH
     ∧ invocations "CA1" LeaveVoicemail (Overlapping.log sys) = 1%nat
     ∧ invocations "CA1" Passthrough (Overlapping.log sys) = 1%nat
     ∧ deleted "CA1" (Overlapping.log sys) = false
     ∧ Overlapping.suspended sys = [])
  ∧ ¬ forward VOICEMAIL_DELIVERED PASSTHROUGH.
Proof.
  split; [|split].
  - intros w t c sr vm st.
    pose proof (where_the_resolver_waits w t c sr vm st) as H.
    destruct (Overlapping.processTranscriptionWithScenarios w t c sr vm st)
      as [f st' tr|st' tr resume]; [exact I|].
    intros Hi found. destruct H as (H & _). destruct (H Hi) as (_ & _ & Hr).
    destruct (Hr found) as (d & tag & ->).
    split.
    + unfold getCallState, after, markActionProcessed, setCallState, bind,
        modify, emit.
      cbn [fst snd callStates]. rewrite lookup_insert_eq. reflexivity.
    + unfold observed. cbn [omap written list_omap]. rewrite String.eqb_refl.
      reflexivity.
  - vm_compute. repeat split; reflexivity.
  - intros H. exact H.
Qed.

(** ** One after another is one way to overlap *)















